(** * libfsapfs: the container physical map

    A shallow embedding of [libfsapfs/libfsapfs_container_physical_map.c]:
    the decoder of a physical-map block
    ([libfsapfs_container_physical_map_read_data]) and the lookup by
    object identifier
    ([libfsapfs_container_physical_map_get_physical_address_by_object_identifier]),
    together with the collaborators both rely on.

    Conventions.
    - C integers are [Z]; an [int] result is [1], [0] or [-1] as in the
      source.  [size_t] arithmetic that can wrap is written with its
      modulus.
    - A pointer argument that the source tests against [NULL] is an
      [option]: [None] is [NULL].
    - A byte buffer is a [list byte]; the source's [(data, data_size)]
      pair keeps its two components because the callee trusts
      [data_size].
    - Calls that can fail for lack of memory consult a [world]: the
      outcomes of the fallible calls still to come, in call order. *)

From Stdlib Require Import ZArith List Lia Bool.
From Stdlib.Strings Require Import Byte.
Import ListNotations.
Local Open Scope Z_scope.

(** ** libcerror *)

Module Libcerror.

Inductive domain : Type :=
| LIBCERROR_ERROR_DOMAIN_ARGUMENTS
| LIBCERROR_ERROR_DOMAIN_IO
| LIBCERROR_ERROR_DOMAIN_MEMORY
| LIBCERROR_ERROR_DOMAIN_RUNTIME.

(** The error codes the physical map functions pass to
    [libcerror_error_set]. *)
Inductive code : Type :=
| LIBCERROR_ARGUMENT_ERROR_INVALID_VALUE
| LIBCERROR_IO_ERROR_READ_FAILED
| LIBCERROR_MEMORY_ERROR_INSUFFICIENT
| LIBCERROR_MEMORY_ERROR_SET_FAILED
| LIBCERROR_RUNTIME_ERROR_VALUE_MISSING
| LIBCERROR_RUNTIME_ERROR_VALUE_ALREADY_SET
| LIBCERROR_RUNTIME_ERROR_INITIALIZE_FAILED
| LIBCERROR_RUNTIME_ERROR_APPEND_FAILED
| LIBCERROR_RUNTIME_ERROR_GET_FAILED
| LIBCERROR_RUNTIME_ERROR_VALUE_OUT_OF_BOUNDS
| LIBCERROR_RUNTIME_ERROR_UNSUPPORTED_VALUE.

(** An error object, as far as this file fills it: the (domain, code)
    pairs of the [libcerror_error_set] calls made by the physical map
    functions, first call first.  What the collaborators record in the same
    object before returning [-1] is not modelled.  [[]] is "no error". *)
Definition libcerror_error_t : Type := list (domain * code).

Definition libcerror_error_set
  (error : libcerror_error_t) (d : domain) (c : code) : libcerror_error_t :=
  error ++ [(d, c)].

(** The error kinds of the specification (its section on error handling). *)
Inductive error_kind : Type :=
| ArgumentError
| OutOfBounds
| Truncated
| UnsupportedType
| IntegrityError
| StructuralError.

(** How a (domain, code) pair reads in the specification's vocabulary.
    The argument domain is [ArgumentError], the value-out-of-bounds code is
    [OutOfBounds] and the unsupported-value code is [UnsupportedType]; the
    remaining codes (memory, I/O, bookkeeping of the array) have no
    counterpart there. *)
Definition kind_of_code (d : domain) (c : code) : option error_kind :=
  match d, c with
  | LIBCERROR_ERROR_DOMAIN_ARGUMENTS, _ => Some ArgumentError
  | LIBCERROR_ERROR_DOMAIN_RUNTIME, LIBCERROR_RUNTIME_ERROR_VALUE_OUT_OF_BOUNDS =>
      Some OutOfBounds
  | LIBCERROR_ERROR_DOMAIN_RUNTIME, LIBCERROR_RUNTIME_ERROR_UNSUPPORTED_VALUE =>
      Some UnsupportedType
  | _, _ => None
  end.

(** An error object keeps the domain and code of the first call that set
    it; later calls only add context.  The kind read off here is therefore
    the kind of the error whenever no collaborator failed first, as in the
    header checks of the decoder. *)
Definition error_kind_of (error : libcerror_error_t) : option error_kind :=
  match error with
  | [] => None
  | (d, c) :: _ => kind_of_code d c
  end.

End Libcerror.
Import Libcerror.

(** ** Fallible collaborators *)

(** The outcomes of the fallible calls that are still to come ([true]:
    the call succeeds); once the list is used up every call succeeds. *)
Definition world : Type := list bool.

Definition attempt (w : world) : bool * world :=
  match w with
  | [] => (true, [])
  | b :: w' => (b, w')
  end.

Definition no_failure (w : world) : Prop := forallb (fun b => b) w = true.

(** ** byte_stream.h *)

Definition uint8 (b : byte) : Z := Z.of_N (Byte.to_N b).

(** [bs[i]] for a byte stream that starts [offset] bytes into [data]. *)
Definition byte_at (data : list byte) (offset i : Z) : Z :=
  uint8 (nth (Z.to_nat (offset + i)) data x00).

Definition byte_stream_copy_to_uint32_little_endian
  (data : list byte) (offset : Z) : Z :=
  let value := byte_at data offset 3 in
  let value := Z.shiftl value 8 in
  let value := Z.lor value (byte_at data offset 2) in
  let value := Z.shiftl value 8 in
  let value := Z.lor value (byte_at data offset 1) in
  let value := Z.shiftl value 8 in
  let value := Z.lor value (byte_at data offset 0) in
  value.

Definition byte_stream_copy_to_uint64_little_endian
  (data : list byte) (offset : Z) : Z :=
  let value := byte_at data offset 7 in
  let value := Z.shiftl value 8 in
  let value := Z.lor value (byte_at data offset 6) in
  let value := Z.shiftl value 8 in
  let value := Z.lor value (byte_at data offset 5) in
  let value := Z.shiftl value 8 in
  let value := Z.lor value (byte_at data offset 4) in
  let value := Z.shiftl value 8 in
  let value := Z.lor value (byte_at data offset 3) in
  let value := Z.shiftl value 8 in
  let value := Z.lor value (byte_at data offset 2) in
  let value := Z.shiftl value 8 in
  let value := Z.lor value (byte_at data offset 1) in
  let value := Z.shiftl value 8 in
  let value := Z.lor value (byte_at data offset 0) in
  value.

(** ** Platform constants (LP64) *)

Definition SIZE_MODULUS : Z := 2 ^ 64.
Definition SSIZE_MAX : Z := 2 ^ 63 - 1.

(** [a - b] on [size_t]. *)
Definition size_sub (a b : Z) : Z := (a - b) mod SIZE_MODULUS.

(** ** In-memory structures *)

(** The two members of [libfsapfs_container_physical_map_entry_t] that the
    physical map reads.  The module keeps the member names apart from the
    function arguments of the same name. *)
Module Entry.

Record libfsapfs_container_physical_map_entry_t : Type := {
  object_identifier : Z;
  physical_address : Z
}.

End Entry.
Import Entry.

(** [libcdata_array_t]: an ordered, growable sequence of entry pointers. *)
Definition libcdata_array_t : Type :=
  list (option libfsapfs_container_physical_map_entry_t).

(** [entries_array] is a pointer; [None] is the [NULL] left by
    [memory_set] before [libcdata_array_initialize] has run. *)
Record libfsapfs_container_physical_map_t : Type := {
  entries_array : option libcdata_array_t
}.

(** What a call leaves behind: the [int] it returns, the error object, the
    object behind the first pointer argument and the world. *)
Record outcome (A : Type) : Type := {
  result : Z;
  error : libcerror_error_t;
  object : A;
  rest : world
}.
Arguments result {A} _.
Arguments error {A} _.
Arguments object {A} _.
Arguments rest {A} _.

(** ** libcdata_array *)

Definition libcdata_array_initialize (w : world)
  : Z * option libcdata_array_t * world :=
  let '(ok, w) := attempt w in
  if ok then (1, Some [], w) else (-1, None, w).

(** Appends at the end; fails on a [NULL] array and when the array cannot
    grow. *)
Definition libcdata_array_append_entry
  (array : option libcdata_array_t)
  (entry : option libfsapfs_container_physical_map_entry_t)
  (w : world) : Z * option libcdata_array_t * world :=
  match array with
  | None => (-1, None, w)
  | Some a =>
      let '(ok, w) := attempt w in
      if ok then (1, Some (a ++ [entry]), w) else (-1, Some a, w)
  end.

Definition libcdata_array_get_number_of_entries
  (array : option libcdata_array_t) : Z * Z :=
  match array with
  | None => (-1, 0)
  | Some a => (1, Z.of_nat (length a))
  end.

(** [None] is the failure of the call ([NULL] array, index out of range);
    [Some p] is success with the stored pointer [p], which may itself be
    [NULL]. *)
Definition libcdata_array_get_entry_by_index
  (array : option libcdata_array_t) (entry_index : Z)
  : option (option libfsapfs_container_physical_map_entry_t) :=
  match array with
  | None => None
  | Some a =>
      if (entry_index <? 0) || (Z.of_nat (length a) <=? entry_index)
      then None
      else nth_error a (Z.to_nat entry_index)
  end.

(** Frees the entries and the array; the entry free function it calls for
    each entry can report failure.  The array is gone afterwards either
    way. *)
Definition libcdata_array_free
  (array : option libcdata_array_t) (w : world)
  : Z * option libcdata_array_t * world :=
  match array with
  | None => (1, None, w)
  | Some _ =>
      let '(ok, w) := attempt w in
      if ok then (1, None, w) else (-1, None, w)
  end.

(** ** libbfio *)

(** A file IO handle: the bytes of the backing image and the current
    offset. *)
Record libbfio_handle_t : Type := {
  file_data : list byte;
  current_offset : Z
}.

(** [libbfio_handle_seek_offset] with [SEEK_SET]: the new offset, or [-1]
    on a [NULL] handle, a negative offset or an I/O failure. *)
Definition libbfio_handle_seek_offset
  (handle : option libbfio_handle_t) (offset : Z) (w : world)
  : Z * option libbfio_handle_t * world :=
  match handle with
  | None => (-1, None, w)
  | Some h =>
      if offset <? 0 then (-1, Some h, w)
      else
        let '(ok, w) := attempt w in
        if ok then
          (offset,
           Some {| file_data := file_data h; current_offset := offset |}, w)
        else (-1, Some h, w)
  end.

(** [libbfio_handle_read_buffer]: reads up to [size] bytes from the current
    offset, fewer when the image ends first, and advances the offset; yields
    the read count with the bytes read, or [-1] on a [NULL] handle or an I/O
    failure. *)
Definition libbfio_handle_read_buffer
  (handle : option libbfio_handle_t) (size : Z) (w : world)
  : Z * list byte * option libbfio_handle_t * world :=
  match handle with
  | None => (-1, [], None, w)
  | Some h =>
      let '(ok, w) := attempt w in
      if negb ok then (-1, [], Some h, w)
      else
        let buffer :=
          firstn (Z.to_nat size)
            (skipn (Z.to_nat (current_offset h)) (file_data h)) in
        (Z.of_nat (length buffer), buffer,
         Some {| file_data := file_data h;
                 current_offset :=
                   current_offset h + Z.of_nat (length buffer) |},
         w)
  end.

(** ** Errors of the functions around the decoder *)

(** [libfsapfs_container_physical_map_free] and
    [libfsapfs_container_physical_map_read_file_io_handle] pass two codes to
    [libcerror_error_set] that the decoder and the lookup do not use. *)
Inductive further_code : Type :=
| code_of (c : code)
| LIBCERROR_IO_ERROR_SEEK_FAILED
| LIBCERROR_RUNTIME_ERROR_FINALIZE_FAILED.

Definition further_error_t : Type := list (domain * further_code).

(** An error object of the decoder, handed on to a caller. *)
Definition handed_on (error : libcerror_error_t) : further_error_t :=
  map (fun dc : domain * code => (fst dc, code_of (snd dc))) error.

(** What [libfsapfs_container_physical_map_free] leaves behind: the [int]
    it returns, the error object, the value its argument points at and the
    world. *)
Record free_outcome : Type := {
  free_result : Z;
  free_error : further_error_t;
  free_value : option libfsapfs_container_physical_map_t;
  free_rest : world
}.

(** What [libfsapfs_container_physical_map_read_file_io_handle] leaves
    behind: the [int] it returns, the error object, the map, the file IO
    handle and the world. *)
Record file_outcome : Type := {
  file_result : Z;
  file_error : further_error_t;
  file_map : option libfsapfs_container_physical_map_t;
  file_handle : option libbfio_handle_t;
  file_rest : world
}.

(** ** Test vectors *)

(** The entry record of [fsapfs_test_container_physical_map_entry.c]. *)
Definition fsapfs_test_container_physical_map_entry_data1 : list byte :=
  [ x05; x00; x00; x80; x00; x00; x00; x00; x00; x10; x00; x00; x00; x00; x00; x00;
    x00; x00; x00; x00; x00; x00; x00; x00; x00; x04; x00; x00; x00; x00; x00; x00;
    x09; x00; x00; x00; x00; x00; x00; x00 ].

(** A second record: the same object identifier, another address. *)
Definition entry_data2 : list byte :=
  [ x05; x00; x00; x80; x00; x00; x00; x00; x00; x10; x00; x00; x00; x00; x00; x00;
    x00; x00; x00; x00; x00; x00; x00; x00; x00; x04; x00; x00; x00; x00; x00; x00;
    x0b; x00; x00; x00; x00; x00; x00; x00 ].

(** A 40-byte block header with the given type tag and entry count (one
    byte each for the low end of the two fields that vary). *)
Definition block_header (type_low count : byte) : list byte :=
  repeat x00 24 ++ [type_low; x00; x00; x40] ++ repeat x00 8
    ++ [count; x00; x00; x00].

(** A freshly initialized map. *)
Definition fresh_map : libfsapfs_container_physical_map_t :=
  {| entries_array := Some [] |}.

(** A block with the one record of the entry test. *)
Definition block_one_entry : list byte :=
  block_header x0c x01 ++ fsapfs_test_container_physical_map_entry_data1.

(** A block whose two records carry the same object identifier. *)
Definition block_duplicate_identifiers : list byte :=
  block_header x0c x02
    ++ fsapfs_test_container_physical_map_entry_data1 ++ entry_data2.

(** A block that declares two records and ends after the first. *)
Definition block_second_entry_missing : list byte :=
  block_header x0c x02 ++ fsapfs_test_container_physical_map_entry_data1.

(** A header with another type tag, and one that declares 102 records. *)
Definition block_wrong_type : list byte := block_header x0d x00.
Definition block_too_many_entries : list byte := block_header x0c x66.

(** An image with the one-record block 16 bytes in, and one that ends in
    the middle of that block. *)
Definition image_one_block : libbfio_handle_t :=
  {| file_data := repeat x00 16 ++ block_one_entry; current_offset := 0 |}.

Definition image_cut_short : libbfio_handle_t :=
  {| file_data := repeat x00 16 ++ block_header x0c x01; current_offset := 0 |}.

(** ** The on-disk structures and the functions over them *)

Section ContainerPhysicalMap.

(** [sizeof( fsapfs_container_physical_map_t )].  The on-disk declaration
    [fsapfs_container_physical_map.h] is not among the sources, so the
    size stays a parameter; every member the decoder reads lies in the
    first 40 bytes. *)
Variable sizeof_fsapfs_container_physical_map_t : Z.

(** Where the two members of an on-disk entry record start; the entry
    declaration is not among the sources and the layout table gives each
    only as "a fixed sub-offset". *)
Variable entry_object_identifier_offset : Z.
Variable entry_physical_address_offset : Z.

(** Modelled from the spec: the members of [fsapfs_container_physical_map_t]
    (declaration not among the sources) start at the offsets of the layout
    table: [object_type] at 24 and [number_of_entries] at 36. *)
Definition object_type_offset : Z := 24.
Definition number_of_entries_offset : Z := 36.

(** Modelled from the spec: [sizeof( fsapfs_container_physical_map_entry_t )]
    (declaration not among the sources) is the 40 bytes of the layout table,
    the size of the record in the entry test. *)
Definition sizeof_fsapfs_container_physical_map_entry_t : Z := 40.

(** Modelled from the spec: [libfsapfs_container_physical_map_entry_initialize]
    is not among the sources.  Its test fixes what is modelled: a [NULL]
    argument and an already set value are errors, one allocation and one
    [memory_set] can fail, and success yields a cleared entry. *)
Definition libfsapfs_container_physical_map_entry_initialize
  (container_physical_map_entry :
     option (option libfsapfs_container_physical_map_entry_t))
  (w : world)
  : Z * option libfsapfs_container_physical_map_entry_t * world :=
  match container_physical_map_entry with
  | None => (-1, None, w)
  | Some (Some e) => (-1, Some e, w)
  | Some None =>
      let '(allocated, w) := attempt w in
      if negb allocated then (-1, None, w)
      else
        let '(cleared, w) := attempt w in
        if negb cleared then (-1, None, w)
        else (1, Some {| object_identifier := 0; physical_address := 0 |}, w)
  end.

(** Modelled from the spec: [libfsapfs_container_physical_map_entry_read_data]
    is not among the sources.  A buffer smaller than one entry record is
    rejected (a short read is fatal), as are the [NULL] arguments and the
    oversized [data_size] of its test; otherwise the object identifier and
    the physical address are decoded little-endian from their fixed
    sub-offsets. *)
Definition libfsapfs_container_physical_map_entry_read_data
  (container_physical_map_entry :
     option libfsapfs_container_physical_map_entry_t)
  (data : option (list byte)) (data_size : Z)
  : Z * option libfsapfs_container_physical_map_entry_t :=
  match container_physical_map_entry with
  | None => (-1, None)
  | Some e =>
      match data with
      | None => (-1, Some e)
      | Some bytes =>
          if (data_size <? sizeof_fsapfs_container_physical_map_entry_t)
             || (data_size >? SSIZE_MAX)
          then (-1, Some e)
          else
            (1, Some {| object_identifier :=
                          byte_stream_copy_to_uint64_little_endian
                            bytes entry_object_identifier_offset;
                        physical_address :=
                          byte_stream_copy_to_uint64_little_endian
                            bytes entry_physical_address_offset |})
      end
  end.

(** [libfsapfs_container_physical_map_initialize].  The argument is a
    pointer to a pointer: [None] is a [NULL] argument, [Some None] points
    at a [NULL] value.  [object] is the value pointed at afterwards. *)
Definition libfsapfs_container_physical_map_initialize
  (container_physical_map : option (option libfsapfs_container_physical_map_t))
  (w : world) : outcome (option libfsapfs_container_physical_map_t) :=
  match container_physical_map with
  | None =>
      {| result := -1;
         error := libcerror_error_set [] LIBCERROR_ERROR_DOMAIN_ARGUMENTS
                    LIBCERROR_ARGUMENT_ERROR_INVALID_VALUE;
         object := None; rest := w |}
  | Some (Some m) =>
      {| result := -1;
         error := libcerror_error_set [] LIBCERROR_ERROR_DOMAIN_RUNTIME
                    LIBCERROR_RUNTIME_ERROR_VALUE_ALREADY_SET;
         object := Some m; rest := w |}
  | Some None =>
      let '(allocated, w) := attempt w in
      if negb allocated then
        {| result := -1;
           error := libcerror_error_set [] LIBCERROR_ERROR_DOMAIN_MEMORY
                      LIBCERROR_MEMORY_ERROR_INSUFFICIENT;
           object := None; rest := w |}
      else
        let '(cleared, w) := attempt w in
        if negb cleared then
          {| result := -1;
             error := libcerror_error_set [] LIBCERROR_ERROR_DOMAIN_MEMORY
                        LIBCERROR_MEMORY_ERROR_SET_FAILED;
             object := None; rest := w |}
        else
          let '(r, array, w) := libcdata_array_initialize w in
          if negb (r =? 1) then
            {| result := -1;
               error := libcerror_error_set [] LIBCERROR_ERROR_DOMAIN_RUNTIME
                          LIBCERROR_RUNTIME_ERROR_INITIALIZE_FAILED;
               object := None; rest := w |}
          else
            {| result := 1; error := [];
               object := Some {| entries_array := array |}; rest := w |}
  end.

(** The [for] loop of [libfsapfs_container_physical_map_read_data]:
    [remaining] is [number_of_map_entries - map_entry_index].  The local
    [map_entry] is [NULL] at the head of every iteration; on the error
    exits it is freed, which leaves the array as it is at that point. *)
Fixpoint read_data_entries
  (remaining : nat) (data : list byte) (data_size data_offset : Z)
  (array : option libcdata_array_t) (w : world)
  : outcome (option libcdata_array_t) :=
  match remaining with
  | O => {| result := 1; error := []; object := array; rest := w |}
  | S remaining' =>
      let '(r, map_entry, w) :=
        libfsapfs_container_physical_map_entry_initialize (Some None) w in
      if negb (r =? 1) then
        {| result := -1;
           error := libcerror_error_set [] LIBCERROR_ERROR_DOMAIN_RUNTIME
                      LIBCERROR_RUNTIME_ERROR_INITIALIZE_FAILED;
           object := array; rest := w |}
      else
        let '(r, map_entry) :=
          libfsapfs_container_physical_map_entry_read_data
            map_entry
            (Some (skipn (Z.to_nat data_offset) data))
            (size_sub data_size data_offset) in
        if negb (r =? 1) then
          {| result := -1;
             error := libcerror_error_set [] LIBCERROR_ERROR_DOMAIN_IO
                        LIBCERROR_IO_ERROR_READ_FAILED;
             object := array; rest := w |}
        else
          let data_offset :=
            data_offset + sizeof_fsapfs_container_physical_map_entry_t in
          let '(r, array, w) :=
            libcdata_array_append_entry array map_entry w in
          if negb (r =? 1) then
            {| result := -1;
               error := libcerror_error_set [] LIBCERROR_ERROR_DOMAIN_RUNTIME
                          LIBCERROR_RUNTIME_ERROR_APPEND_FAILED;
               object := array; rest := w |}
          else
            read_data_entries remaining' data data_size data_offset array w
  end.

(** [libfsapfs_container_physical_map_read_data]. *)
Definition libfsapfs_container_physical_map_read_data
  (container_physical_map : option libfsapfs_container_physical_map_t)
  (data : option (list byte)) (data_size : Z) (w : world)
  : outcome (option libfsapfs_container_physical_map_t) :=
  match container_physical_map with
  | None =>
      {| result := -1;
         error := libcerror_error_set [] LIBCERROR_ERROR_DOMAIN_ARGUMENTS
                    LIBCERROR_ARGUMENT_ERROR_INVALID_VALUE;
         object := None; rest := w |}
  | Some m =>
      match data with
      | None =>
          {| result := -1;
             error := libcerror_error_set [] LIBCERROR_ERROR_DOMAIN_RUNTIME
                        LIBCERROR_RUNTIME_ERROR_VALUE_MISSING;
             object := Some m; rest := w |}
      | Some bytes =>
          if (data_size <? sizeof_fsapfs_container_physical_map_t)
             || (data_size >? SSIZE_MAX)
          then
            {| result := -1;
               error := libcerror_error_set [] LIBCERROR_ERROR_DOMAIN_RUNTIME
                          LIBCERROR_RUNTIME_ERROR_VALUE_OUT_OF_BOUNDS;
               object := Some m; rest := w |}
          else
            let object_type :=
              byte_stream_copy_to_uint32_little_endian
                bytes object_type_offset in
            if negb (object_type =? 0x4000000c) then
              {| result := -1;
                 error := libcerror_error_set [] LIBCERROR_ERROR_DOMAIN_RUNTIME
                            LIBCERROR_RUNTIME_ERROR_UNSUPPORTED_VALUE;
                 object := Some m; rest := w |}
            else
              let number_of_map_entries :=
                byte_stream_copy_to_uint32_little_endian
                  bytes number_of_entries_offset in
              let data_offset := 40 in
              if number_of_map_entries >? 101 then
                {| result := -1;
                   error := libcerror_error_set [] LIBCERROR_ERROR_DOMAIN_RUNTIME
                              LIBCERROR_RUNTIME_ERROR_VALUE_OUT_OF_BOUNDS;
                   object := Some m; rest := w |}
              else
                let o :=
                  read_data_entries (Z.to_nat number_of_map_entries)
                    bytes data_size data_offset (entries_array m) w in
                {| result := result o; error := error o;
                   object := Some {| entries_array := object o |};
                   rest := rest o |}
      end
  end.

(** What a lookup leaves behind: the [int] it returns, the error object,
    the map behind [container_physical_map] and the value behind
    [physical_address] ([None] for a [NULL] pointer). *)
Record lookup_outcome : Type := {
  lookup_result : Z;
  lookup_error : libcerror_error_t;
  lookup_map : option libfsapfs_container_physical_map_t;
  lookup_physical_address : option Z
}.

(** The [for] loop of the lookup: [remaining] is
    [number_of_entries - entry_index].  It yields the result, the error,
    the array and the value behind [physical_address] at the exit. *)
Fixpoint get_physical_address_entries
  (remaining : nat) (entry_index : Z) (array : option libcdata_array_t)
  (object_identifier : Z) (physical_address : Z)
  : Z * libcerror_error_t * option libcdata_array_t * Z :=
  match remaining with
  | O => (0, [], array, physical_address)
  | S remaining' =>
      match libcdata_array_get_entry_by_index array entry_index with
      | None =>
          (-1,
           libcerror_error_set [] LIBCERROR_ERROR_DOMAIN_RUNTIME
             LIBCERROR_RUNTIME_ERROR_GET_FAILED,
           array, physical_address)
      | Some None =>
          (-1,
           libcerror_error_set [] LIBCERROR_ERROR_DOMAIN_RUNTIME
             LIBCERROR_RUNTIME_ERROR_VALUE_MISSING,
           array, physical_address)
      | Some (Some map_entry) =>
          if object_identifier =? Entry.object_identifier map_entry then
            (1, [], array, Entry.physical_address map_entry)
          else
            get_physical_address_entries remaining' (entry_index + 1)
              array object_identifier physical_address
      end
  end.

(** [libfsapfs_container_physical_map_get_physical_address_by_object_identifier]. *)
Definition libfsapfs_container_physical_map_get_physical_address_by_object_identifier
  (container_physical_map : option libfsapfs_container_physical_map_t)
  (object_identifier : Z) (physical_address : option Z) : lookup_outcome :=
  match container_physical_map with
  | None =>
      {| lookup_result := -1;
         lookup_error := libcerror_error_set [] LIBCERROR_ERROR_DOMAIN_ARGUMENTS
                           LIBCERROR_ARGUMENT_ERROR_INVALID_VALUE;
         lookup_map := None;
         lookup_physical_address := physical_address |}
  | Some m =>
      match physical_address with
      | None =>
          {| lookup_result := -1;
             lookup_error := libcerror_error_set [] LIBCERROR_ERROR_DOMAIN_RUNTIME
                               LIBCERROR_RUNTIME_ERROR_VALUE_MISSING;
             lookup_map := Some m;
             lookup_physical_address := None |}
      | Some value =>
          let '(r, number_of_entries) :=
            libcdata_array_get_number_of_entries (entries_array m) in
          if negb (r =? 1) then
            {| lookup_result := -1;
               lookup_error := libcerror_error_set [] LIBCERROR_ERROR_DOMAIN_RUNTIME
                                 LIBCERROR_RUNTIME_ERROR_GET_FAILED;
               lookup_map := Some m;
               lookup_physical_address := Some value |}
          else
            let '(r, e, array, value) :=
              get_physical_address_entries (Z.to_nat number_of_entries) 0
                (entries_array m) object_identifier value in
            {| lookup_result := r; lookup_error := e;
               lookup_map := Some {| entries_array := array |};
               lookup_physical_address := Some value |}
      end
  end.

(** [libfsapfs_container_physical_map_free].  The argument is a pointer to
    a pointer, as for the initializer. *)
Definition libfsapfs_container_physical_map_free
  (container_physical_map : option (option libfsapfs_container_physical_map_t))
  (w : world) : free_outcome :=
  match container_physical_map with
  | None =>
      {| free_result := -1;
         free_error := [(LIBCERROR_ERROR_DOMAIN_ARGUMENTS,
                         code_of LIBCERROR_ARGUMENT_ERROR_INVALID_VALUE)];
         free_value := None; free_rest := w |}
  | Some None =>
      {| free_result := 1; free_error := []; free_value := None;
         free_rest := w |}
  | Some (Some m) =>
      let '(r, _, w) := libcdata_array_free (entries_array m) w in
      if negb (r =? 1) then
        {| free_result := -1;
           free_error := [(LIBCERROR_ERROR_DOMAIN_RUNTIME,
                           LIBCERROR_RUNTIME_ERROR_FINALIZE_FAILED)];
           free_value := None; free_rest := w |}
      else
        {| free_result := 1; free_error := []; free_value := None;
           free_rest := w |}
  end.

(** [libfsapfs_container_physical_map_read_file_io_handle].  The local
    [container_physical_map_data] is used only after a read that filled all
    of it, so it is the buffer the read returned. *)
Definition libfsapfs_container_physical_map_read_file_io_handle
  (container_physical_map : option libfsapfs_container_physical_map_t)
  (file_io_handle : option libbfio_handle_t) (file_offset : Z) (w : world)
  : file_outcome :=
  match container_physical_map with
  | None =>
      {| file_result := -1;
         file_error := [(LIBCERROR_ERROR_DOMAIN_ARGUMENTS,
                         code_of LIBCERROR_ARGUMENT_ERROR_INVALID_VALUE)];
         file_map := None; file_handle := file_io_handle; file_rest := w |}
  | Some m =>
      let '(sought, file_io_handle, w) :=
        libbfio_handle_seek_offset file_io_handle file_offset w in
      if sought =? -1 then
        {| file_result := -1;
           file_error := [(LIBCERROR_ERROR_DOMAIN_IO,
                           LIBCERROR_IO_ERROR_SEEK_FAILED)];
           file_map := Some m; file_handle := file_io_handle;
           file_rest := w |}
      else
        let '(read_count, container_physical_map_data, file_io_handle, w) :=
          libbfio_handle_read_buffer file_io_handle
            sizeof_fsapfs_container_physical_map_t w in
        if negb (read_count =? sizeof_fsapfs_container_physical_map_t) then
          {| file_result := -1;
             file_error := [(LIBCERROR_ERROR_DOMAIN_IO,
                             code_of LIBCERROR_IO_ERROR_READ_FAILED)];
             file_map := Some m; file_handle := file_io_handle;
             file_rest := w |}
        else
          let o :=
            libfsapfs_container_physical_map_read_data
              (Some m) (Some container_physical_map_data)
              sizeof_fsapfs_container_physical_map_t w in
          if negb (result o =? 1) then
            {| file_result := -1;
               file_error :=
                 handed_on (error o)
                 ++ [(LIBCERROR_ERROR_DOMAIN_IO,
                      code_of LIBCERROR_IO_ERROR_READ_FAILED)];
               file_map := object o; file_handle := file_io_handle;
               file_rest := rest o |}
          else
            {| file_result := 1; file_error := [];
               file_map := object o; file_handle := file_io_handle;
               file_rest := rest o |}
  end.

(** The little-endian value of [width] bytes from [offset] on, as a sum. *)
Fixpoint little_endian_sum (data : list byte) (offset : Z) (width : nat) : Z :=
  match width with
  | O => 0
  | S width' =>
      byte_at data offset 0
      + 256 * little_endian_sum data (offset + 1) width'
  end.

(** ** Vocabulary of the statements *)

(** The entry record that starts [offset] bytes into [data], decoded. *)
Definition entry_at (data : list byte) (offset : Z)
  : libfsapfs_container_physical_map_entry_t :=
  {| object_identifier :=
       byte_stream_copy_to_uint64_little_endian
         (skipn (Z.to_nat offset) data) entry_object_identifier_offset;
     physical_address :=
       byte_stream_copy_to_uint64_little_endian
         (skipn (Z.to_nat offset) data) entry_physical_address_offset |}.

(** The [count] consecutive entry records from [offset] on, in on-disk
    order. *)
Fixpoint block_entries (count : nat) (data : list byte) (offset : Z)
  : list libfsapfs_container_physical_map_entry_t :=
  match count with
  | O => []
  | S count' =>
      entry_at data offset
        :: block_entries count' data
             (offset + sizeof_fsapfs_container_physical_map_entry_t)
  end.

(** Entry [i] of a block: the record at [40 + 40 * i]. *)
Definition block_entry (data : list byte) (i : nat)
  : libfsapfs_container_physical_map_entry_t :=
  entry_at data (40 + sizeof_fsapfs_container_physical_map_entry_t * Z.of_nat i).

(** The value of the two header fields the decoder looks at. *)
Definition block_object_type (data : list byte) : Z :=
  byte_stream_copy_to_uint32_little_endian data object_type_offset.

Definition block_number_of_entries (data : list byte) : Z :=
  byte_stream_copy_to_uint32_little_endian data number_of_entries_offset.

(** Decoding a whole buffer into a given map. *)
Definition read_block
  (m : libfsapfs_container_physical_map_t) (data : list byte) (w : world)
  : outcome (option libfsapfs_container_physical_map_t) :=
  libfsapfs_container_physical_map_read_data
    (Some m) (Some data) (Z.of_nat (length data)) w.

(** What the decoder does once the size, type and ceiling checks are
    behind it: its entry loop over the declared number of records, from
    offset 40 on, appending to the array of the map. *)
Definition read_block_entries
  (m : libfsapfs_container_physical_map_t) (data : list byte) (w : world)
  : outcome (option libfsapfs_container_physical_map_t) :=
  let o :=
    read_data_entries (Z.to_nat (block_number_of_entries data))
      data (Z.of_nat (length data)) 40 (entries_array m) w in
  {| result := result o; error := error o;
     object := Some {| entries_array := object o |};
     rest := rest o |}.

(** Decoding a buffer into a freshly initialized map: what a caller does
    with [libfsapfs_container_physical_map_initialize] followed by
    [libfsapfs_container_physical_map_read_data]. *)
Definition initialize_and_read_data (data : list byte) (w : world)
  : outcome (option libfsapfs_container_physical_map_t) :=
  let created := libfsapfs_container_physical_map_initialize (Some None) w in
  if negb (result created =? 1) then created
  else
    libfsapfs_container_physical_map_read_data
      (object created) (Some data) (Z.of_nat (length data)) (rest created).

(** The entries of a map, when its array holds no [NULL] pointer. *)
Definition holds_entries
  (container_physical_map : option libfsapfs_container_physical_map_t)
  (entries : list libfsapfs_container_physical_map_entry_t) : Prop :=
  container_physical_map = Some {| entries_array := Some (map Some entries) |}.

(** The first entry of a list with the given object identifier. *)
Fixpoint first_match
  (entries : list libfsapfs_container_physical_map_entry_t) (identifier : Z)
  : option libfsapfs_container_physical_map_entry_t :=
  match entries with
  | [] => None
  | e :: entries' =>
      if identifier =? Entry.object_identifier e then Some e
      else first_match entries' identifier
  end.

(** What the scan of the lookup yields on the part of the array it has
    not visited yet. *)
Fixpoint scan
  (unvisited : libcdata_array_t) (identifier : Z) (value : Z)
  : Z * libcerror_error_t * Z :=
  match unvisited with
  | [] => (0, [], value)
  | None :: _ =>
      (-1,
       libcerror_error_set [] LIBCERROR_ERROR_DOMAIN_RUNTIME
         LIBCERROR_RUNTIME_ERROR_VALUE_MISSING,
       value)
  | Some e :: unvisited' =>
      if identifier =? Entry.object_identifier e
      then (1, [], Entry.physical_address e)
      else scan unvisited' identifier value
  end.

(** The outcome of the fallible call number [i] from now on, counting from
    0: what the world holds at that place, success once it is used up. *)
Definition answer (w : world) (i : nat) : bool := nth i w true.

(** ** The world *)

Lemma attempt_no_failure (w : world) :
  no_failure w -> exists w', attempt w = (true, w') /\ no_failure w'.
Proof.
  unfold no_failure. destruct w as [|b w]; simpl; intros H.
  - exists []. split; reflexivity.
  - apply andb_true_iff in H. destruct H as [Hb Hw]. subst b.
    exists w. split; [reflexivity | exact Hw].
Qed.

Lemma entry_initialize_no_failure (w : world) :
  no_failure w ->
  exists w',
    libfsapfs_container_physical_map_entry_initialize (Some None) w
    = (1, Some {| object_identifier := 0; physical_address := 0 |}, w')
    /\ no_failure w'.
Proof.
  intros H. unfold libfsapfs_container_physical_map_entry_initialize.
  destruct (attempt_no_failure w H) as [w1 [E1 H1]]. rewrite E1. simpl.
  destruct (attempt_no_failure w1 H1) as [w2 [E2 H2]]. rewrite E2. simpl.
  exists w2. split; [reflexivity | exact H2].
Qed.

Lemma initialize_no_failure (w : world) :
  no_failure w ->
  exists w',
    libfsapfs_container_physical_map_initialize (Some None) w
    = {| result := 1; error := []; object := Some fresh_map; rest := w' |}
    /\ no_failure w'.
Proof.
  intros H. unfold libfsapfs_container_physical_map_initialize.
  destruct (attempt_no_failure w H) as [w1 [E1 H1]]. rewrite E1. simpl.
  destruct (attempt_no_failure w1 H1) as [w2 [E2 H2]]. rewrite E2. simpl.
  unfold libcdata_array_initialize.
  destruct (attempt_no_failure w2 H2) as [w3 [E3 H3]]. rewrite E3. simpl.
  exists w3. split; [reflexivity | exact H3].
Qed.

(** ** The entry reader *)

Lemma size_sub_small (a b : Z) :
  0 <= b -> b <= a -> a <= SSIZE_MAX -> size_sub a b = a - b.
Proof.
  unfold size_sub, SIZE_MODULUS, SSIZE_MAX. intros Hb Hab Ha.
  apply Z.mod_small. lia.
Qed.

Lemma entry_read_data_fits
  (e : libfsapfs_container_physical_map_entry_t)
  (data : list byte) (data_size data_offset : Z) :
  0 <= data_offset ->
  data_offset + sizeof_fsapfs_container_physical_map_entry_t <= data_size ->
  data_size <= SSIZE_MAX ->
  libfsapfs_container_physical_map_entry_read_data
    (Some e) (Some (skipn (Z.to_nat data_offset) data))
    (size_sub data_size data_offset)
  = (1, Some (entry_at data data_offset)).
Proof.
  unfold sizeof_fsapfs_container_physical_map_entry_t. intros H0 H1 H2.
  unfold libfsapfs_container_physical_map_entry_read_data.
  rewrite size_sub_small by lia.
  unfold sizeof_fsapfs_container_physical_map_entry_t.
  replace (data_size - data_offset <? 40) with false
    by (symmetry; apply Z.ltb_ge; lia).
  replace (data_size - data_offset >? SSIZE_MAX) with false
    by (symmetry; rewrite Z.gtb_ltb; apply Z.ltb_ge; lia).
  reflexivity.
Qed.

(** Whatever the sizes, a record the entry reader accepts is decoded from
    where it starts. *)
Lemma entry_read_data_accepts
  (e : libfsapfs_container_physical_map_entry_t)
  (data : list byte) (size data_offset : Z)
  (r : Z) (e' : option libfsapfs_container_physical_map_entry_t) :
  libfsapfs_container_physical_map_entry_read_data
    (Some e) (Some (skipn (Z.to_nat data_offset) data)) size = (r, e') ->
  (r = 1 /\ e' = Some (entry_at data data_offset)) \/ r = -1.
Proof.
  unfold libfsapfs_container_physical_map_entry_read_data.
  destruct ((size <? sizeof_fsapfs_container_physical_map_entry_t)
            || (size >? SSIZE_MAX)); intros E; inversion E; subst.
  - right. reflexivity.
  - left. split; reflexivity.
Qed.

Lemma entry_initialize_cases (w : world)
  (r : Z) (e : option libfsapfs_container_physical_map_entry_t) (w' : world) :
  libfsapfs_container_physical_map_entry_initialize (Some None) w = (r, e, w') ->
  (r = 1 /\ exists e0, e = Some e0) \/ r = -1.
Proof.
  unfold libfsapfs_container_physical_map_entry_initialize.
  destruct (attempt w) as [[|] w1]; simpl.
  - destruct (attempt w1) as [[|] w2]; simpl; intros E; inversion E; subst.
    + left. split; [reflexivity | eexists; reflexivity].
    + right. reflexivity.
  - intros E; inversion E; subst. right. reflexivity.
Qed.

(** ** The entry loop of the decoder *)

(** With memory to spare and [count] whole records in the buffer, the loop
    appends exactly those records, in on-disk order. *)
Lemma read_data_entries_ok (count : nat) :
  forall (data : list byte) (data_size data_offset : Z)
         (array : libcdata_array_t) (w : world),
    no_failure w ->
    0 <= data_offset ->
    data_offset
      + sizeof_fsapfs_container_physical_map_entry_t * Z.of_nat count
      <= data_size ->
    data_size <= SSIZE_MAX ->
    exists w',
      read_data_entries count data data_size data_offset (Some array) w
      = {| result := 1; error := [];
           object := Some (array
                           ++ map Some (block_entries count data data_offset));
           rest := w' |}
      /\ no_failure w'.
Proof.
  induction count as [|count IH]; intros data data_size data_offset array w
    Hw Hoff Hfit Hmax.
  - exists w. simpl. rewrite app_nil_r. split; [reflexivity | exact Hw].
  - cbn [read_data_entries].
    destruct (entry_initialize_no_failure w Hw) as [w1 [E1 Hw1]].
    rewrite E1. cbn [Z.eqb Pos.eqb negb].
    rewrite entry_read_data_fits
      by (unfold sizeof_fsapfs_container_physical_map_entry_t in *; lia).
    cbn [Z.eqb Pos.eqb negb].
    unfold libcdata_array_append_entry.
    destruct (attempt_no_failure w1 Hw1) as [w2 [E2 Hw2]].
    rewrite E2. cbn [Z.eqb Pos.eqb negb].
    destruct (IH data data_size
                (data_offset + sizeof_fsapfs_container_physical_map_entry_t)
                (array ++ [Some (entry_at data data_offset)]) w2)
      as [w' [E' Hw']];
      try (unfold sizeof_fsapfs_container_physical_map_entry_t in *; lia);
      try assumption.
    exists w'. split; [| exact Hw'].
    eapply eq_trans; [exact E' |].
    cbn [block_entries map]. rewrite <- app_assoc. reflexivity.
Qed.

(** Whatever the buffer and the world, the loop leaves the array it was
    given followed by the records decoded before it stopped: all [count] of
    them when it returns 1, fewer when it returns -1. *)
Lemma read_data_entries_prefix (count : nat) :
  forall (data : list byte) (data_size data_offset : Z)
         (array : option libcdata_array_t) (w : world),
    let o := read_data_entries count data data_size data_offset array w in
    exists k : nat,
      object o
      = option_map
          (fun a => a ++ map Some (block_entries k data data_offset)) array
      /\ ((result o = 1 /\ error o = [] /\ k = count)
          \/ (result o = -1 /\ error o <> [] /\ (k < count)%nat)).
Proof.
  induction count as [|count IH]; intros data data_size data_offset array w.
  - exists O. simpl. split.
    + destruct array as [a|]; simpl; [rewrite app_nil_r|]; reflexivity.
    + left. repeat split; reflexivity.
  - cbn [read_data_entries].
    assert (Hzero :
      array = option_map
                (fun a => a ++ map Some (block_entries 0 data data_offset))
                array).
    { destruct array as [a|]; simpl; [rewrite app_nil_r|]; reflexivity. }
    destruct (libfsapfs_container_physical_map_entry_initialize (Some None) w)
      as [[r1 e1] w1] eqn:E1.
    destruct (entry_initialize_cases _ _ _ _ E1) as [[-> [e0 ->]] | ->].
    2:{ exists O. simpl. split; [exact Hzero |].
        right. repeat split; [discriminate | lia]. }
    cbn [Z.eqb Pos.eqb negb].
    destruct (libfsapfs_container_physical_map_entry_read_data (Some e0)
                (Some (skipn (Z.to_nat data_offset) data))
                (size_sub data_size data_offset)) as [r2 e2] eqn:E2.
    destruct (entry_read_data_accepts _ _ _ _ _ _ E2) as [[-> ->] | ->].
    2:{ exists O. simpl. split; [exact Hzero |].
        right. repeat split; [discriminate | lia]. }
    cbn [Z.eqb Pos.eqb negb].
    destruct array as [a|]; cbn [libcdata_array_append_entry].
    2:{ exists O. simpl. split; [reflexivity |].
        right. repeat split; [discriminate | lia]. }
    destruct (attempt w1) as [[|] w2]; cbn [Z.eqb Pos.eqb negb].
    2:{ exists O. simpl. split; [rewrite app_nil_r; reflexivity |].
        right. repeat split; [discriminate | lia]. }
    destruct (IH data data_size
                (data_offset + sizeof_fsapfs_container_physical_map_entry_t)
                (Some (a ++ [Some (entry_at data data_offset)])) w2)
      as [k [Hobj Hres]].
    exists (S k). split.
    + rewrite Hobj. cbn [option_map block_entries map].
      rewrite <- app_assoc. reflexivity.
    + destruct Hres as [[H1 [H2 H3]] | [H1 [H2 H3]]].
      * left. repeat split; [exact H1 | exact H2 | congruence].
      * right. repeat split; [exact H1 | exact H2 | lia].
Qed.

(** The loop asks the world only whether memory is left: two worlds that
    both have memory to spare give the same result. *)
Lemma read_data_entries_world (count : nat) :
  forall (data : list byte) (data_size data_offset : Z)
         (array : option libcdata_array_t) (w1 w2 : world),
    no_failure w1 -> no_failure w2 ->
    let o1 := read_data_entries count data data_size data_offset array w1 in
    let o2 := read_data_entries count data data_size data_offset array w2 in
    result o1 = result o2 /\ error o1 = error o2 /\ object o1 = object o2.
Proof.
  induction count as [|count IH]; intros data data_size data_offset array w1 w2
    H1 H2.
  - simpl. repeat split; reflexivity.
  - cbn [read_data_entries].
    destruct (entry_initialize_no_failure w1 H1) as [v1 [E1 Hv1]].
    destruct (entry_initialize_no_failure w2 H2) as [v2 [E2 Hv2]].
    rewrite E1, E2. cbn [Z.eqb Pos.eqb negb].
    destruct (libfsapfs_container_physical_map_entry_read_data _ _ _)
      as [r e].
    destruct (negb (r =? 1)).
    + simpl. repeat split; reflexivity.
    + destruct array as [a|]; cbn [libcdata_array_append_entry].
      * destruct (attempt_no_failure v1 Hv1) as [u1 [A1 Hu1]].
        destruct (attempt_no_failure v2 Hv2) as [u2 [A2 Hu2]].
        rewrite A1, A2. cbn [Z.eqb Pos.eqb negb].
        apply IH; assumption.
      * simpl. repeat split; reflexivity.
Qed.

(** ** The records of a block *)

Lemma block_entries_length (count : nat) :
  forall (data : list byte) (offset : Z),
    length (block_entries count data offset) = count.
Proof.
  induction count as [|count IH]; intros data offset; simpl;
    [reflexivity | rewrite IH; reflexivity].
Qed.

Lemma block_entries_nth (count : nat) :
  forall (data : list byte) (offset : Z) (i : nat),
    (i < count)%nat ->
    nth_error (block_entries count data offset) i
    = Some (entry_at data
              (offset
               + sizeof_fsapfs_container_physical_map_entry_t * Z.of_nat i)).
Proof.
  unfold sizeof_fsapfs_container_physical_map_entry_t.
  induction count as [|count IH]; intros data offset i Hi; [lia |].
  destruct i as [|i]; cbn [block_entries nth_error].
  - f_equal. f_equal. simpl. lia.
  - rewrite IH by lia. f_equal. f_equal.
    unfold sizeof_fsapfs_container_physical_map_entry_t. lia.
Qed.

Lemma block_entry_nth (count : nat) (data : list byte) (i : nat) :
  (i < count)%nat ->
  nth_error (block_entries count data 40) i = Some (block_entry data i).
Proof.
  intros Hi. unfold block_entry. apply block_entries_nth. exact Hi.
Qed.

(** ** First matches *)

Lemma first_match_absent
  (entries : list libfsapfs_container_physical_map_entry_t) (identifier : Z) :
  (forall e, In e entries -> Entry.object_identifier e <> identifier) ->
  first_match entries identifier = None.
Proof.
  induction entries as [|e entries IH]; intros H; simpl; [reflexivity |].
  destruct (Z.eqb_spec identifier (Entry.object_identifier e)) as [Heq | Hne].
  - exfalso. apply (H e); [left; reflexivity | symmetry; exact Heq].
  - apply IH. intros e' Hin. apply H. right. exact Hin.
Qed.

(** A hit is the earliest entry with the identifier. *)
Lemma first_match_earliest
  (entries : list libfsapfs_container_physical_map_entry_t) (identifier : Z) :
  forall e,
    first_match entries identifier = Some e ->
    exists j : nat,
      nth_error entries j = Some e
      /\ Entry.object_identifier e = identifier
      /\ forall (k : nat) e',
           (k < j)%nat -> nth_error entries k = Some e' ->
           Entry.object_identifier e' <> identifier.
Proof.
  induction entries as [|e0 entries IH]; intros e; simpl; [discriminate |].
  destruct (Z.eqb_spec identifier (Entry.object_identifier e0)) as [Heq | Hne].
  - intros E; inversion E; subst e0. exists O.
    split; [reflexivity |]. split; [symmetry; exact Heq |].
    intros k e' Hk. lia.
  - intros E. destruct (IH e E) as [j [Hj [Hid Hbefore]]].
    exists (S j). split; [exact Hj |]. split; [exact Hid |].
    intros [|k] e' Hk Hnth; simpl in Hnth.
    + inversion Hnth; subst e'. intros Hc. apply Hne. symmetry. exact Hc.
    + apply (Hbefore k e'); [lia | exact Hnth].
Qed.

(** Every identifier that occurs has a hit. *)
Lemma first_match_present
  (entries : list libfsapfs_container_physical_map_entry_t) (identifier : Z) :
  (exists e, In e entries /\ Entry.object_identifier e = identifier) ->
  exists e, first_match entries identifier = Some e.
Proof.
  induction entries as [|e0 entries IH]; intros [e [Hin Hid]]; simpl.
  - destruct Hin.
  - destruct (Z.eqb_spec identifier (Entry.object_identifier e0)) as [Heq | Hne].
    + exists e0. reflexivity.
    + apply IH. exists e. split; [| exact Hid].
      destruct Hin as [-> | Hin]; [| exact Hin].
      exfalso. apply Hne. symmetry. exact Hid.
Qed.

(** Among pairwise-distinct identifiers the hit for the identifier of entry
    [i] is entry [i]. *)
Lemma first_match_distinct
  (entries : list libfsapfs_container_physical_map_entry_t) :
  NoDup (map Entry.object_identifier entries) ->
  forall (i : nat) e,
    nth_error entries i = Some e ->
    first_match entries (Entry.object_identifier e) = Some e.
Proof.
  induction entries as [|e0 entries IH]; intros Hnd i e Hnth.
  - destruct i; discriminate.
  - simpl in Hnd. inversion Hnd as [|x l Hnotin Hnd']; subst.
    destruct i as [|i]; simpl in Hnth.
    + inversion Hnth; subst e0. simpl. rewrite Z.eqb_refl. reflexivity.
    + simpl.
      destruct (Z.eqb_spec (Entry.object_identifier e)
                  (Entry.object_identifier e0)) as [Heq | Hne].
      * exfalso. apply Hnotin. rewrite <- Heq.
        apply in_map. eapply nth_error_In. exact Hnth.
      * apply (IH Hnd' i e Hnth).
Qed.

(** ** The scan of the lookup *)

Lemma get_entry_by_index_middle
  (visited unvisited : libcdata_array_t)
  (p : option libfsapfs_container_physical_map_entry_t) :
  libcdata_array_get_entry_by_index
    (Some (visited ++ p :: unvisited)) (Z.of_nat (length visited))
  = Some p.
Proof.
  unfold libcdata_array_get_entry_by_index.
  rewrite length_app. cbn [length].
  replace (Z.of_nat (length visited) <? 0) with false
    by (symmetry; apply Z.ltb_ge; lia).
  replace (Z.of_nat (length visited + S (length unvisited))
           <=? Z.of_nat (length visited)) with false
    by (symmetry; apply Z.leb_gt; lia).
  cbn [orb]. rewrite Nat2Z.id.
  rewrite nth_error_app2 by lia. rewrite Nat.sub_diag. reflexivity.
Qed.

Lemma get_physical_address_entries_scan (unvisited : libcdata_array_t) :
  forall (visited : libcdata_array_t) (identifier value : Z),
    get_physical_address_entries
      (length unvisited) (Z.of_nat (length visited))
      (Some (visited ++ unvisited)) identifier value
    = (let '(r, e, value') := scan unvisited identifier value in
       (r, e, Some (visited ++ unvisited), value')).
Proof.
  induction unvisited as [|p unvisited IH]; intros visited identifier value.
  - reflexivity.
  - cbn [length get_physical_address_entries].
    rewrite get_entry_by_index_middle.
    destruct p as [e|]; cbn [scan]; [| reflexivity].
    destruct (identifier =? Entry.object_identifier e); [reflexivity |].
    specialize (IH (visited ++ [Some e]) identifier value).
    rewrite length_app in IH. cbn [length] in IH.
    rewrite <- app_assoc in IH. cbn [app] in IH.
    replace (Z.of_nat (length visited) + 1)
      with (Z.of_nat (length visited + 1)) by lia.
    exact IH.
Qed.

Lemma scan_entries
  (entries : list libfsapfs_container_physical_map_entry_t)
  (identifier value : Z) :
  scan (map Some entries) identifier value
  = match first_match entries identifier with
    | Some e => (1, [], Entry.physical_address e)
    | None => (0, [], value)
    end.
Proof.
  induction entries as [|e entries IH]; simpl; [reflexivity |].
  destruct (identifier =? Entry.object_identifier e); [reflexivity | exact IH].
Qed.

(** The lookup on a map whose array holds the given entries. *)
Lemma get_physical_address_entries_of
  (entries : list libfsapfs_container_physical_map_entry_t)
  (identifier value : Z) :
  libfsapfs_container_physical_map_get_physical_address_by_object_identifier
    (Some {| entries_array := Some (map Some entries) |})
    identifier (Some value)
  = {| lookup_result :=
         match first_match entries identifier with Some _ => 1 | None => 0 end;
       lookup_error := [];
       lookup_map := Some {| entries_array := Some (map Some entries) |};
       lookup_physical_address :=
         Some match first_match entries identifier with
              | Some e => Entry.physical_address e
              | None => value
              end |}.
Proof.
  unfold libfsapfs_container_physical_map_get_physical_address_by_object_identifier.
  cbn [entries_array libcdata_array_get_number_of_entries Z.eqb Pos.eqb negb].
  rewrite Nat2Z.id.
  pose proof (get_physical_address_entries_scan
                (map Some entries) [] identifier value) as H.
  cbn [length app Z.of_nat] in H. rewrite H. rewrite scan_entries.
  destruct (first_match entries identifier); reflexivity.
Qed.

(** The loop of the lookup writes nothing but the value behind
    [physical_address], and that only on a hit. *)
Lemma get_physical_address_entries_frame (remaining : nat) :
  forall (entry_index : Z) (array : option libcdata_array_t)
         (identifier value : Z),
    let '(r, e, array', value') :=
      get_physical_address_entries remaining entry_index array
        identifier value in
    array' = array
    /\ (r = 1 \/ r = 0 \/ r = -1)
    /\ (r <> 1 -> value' = value)
    /\ (r = 1 ->
        exists a entry,
          array = Some a /\ In (Some entry) a
          /\ Entry.object_identifier entry = identifier
          /\ value' = Entry.physical_address entry).
Proof.
  induction remaining as [|remaining IH];
    intros entry_index array identifier value.
  - simpl. repeat split; try tauto. intros H; discriminate.
  - cbn [get_physical_address_entries].
    destruct (libcdata_array_get_entry_by_index array entry_index)
      as [[entry|]|] eqn:Hget.
    + destruct (Z.eqb_spec identifier (Entry.object_identifier entry))
        as [Heq | Hne].
      * repeat split; try tauto. intros _.
        unfold libcdata_array_get_entry_by_index in Hget.
        destruct array as [a|]; [| discriminate].
        destruct ((entry_index <? 0) || (Z.of_nat (length a) <=? entry_index));
          [discriminate |].
        exists a, entry. repeat split.
        -- eapply nth_error_In. exact Hget.
        -- symmetry. exact Heq.
      * apply IH.
    + repeat split; try tauto. intros H; discriminate.
    + repeat split; try tauto. intros H; discriminate.
Qed.

(** ** The decoder *)

(** The ways [libfsapfs_container_physical_map_initialize] ends. *)
Lemma initialize_cases (w : world) :
  let created := libfsapfs_container_physical_map_initialize (Some None) w in
  (result created = 1 /\ error created = []
   /\ object created = Some fresh_map)
  \/ (result created = -1 /\ error created <> [] /\ object created = None).
Proof.
  unfold libfsapfs_container_physical_map_initialize, libcdata_array_initialize.
  destruct (attempt w) as [[|] w1]; simpl.
  - destruct (attempt w1) as [[|] w2]; simpl.
    + destruct (attempt w2) as [[|] w3]; simpl.
      * left. repeat split; reflexivity.
      * right. repeat split; [discriminate].
    + right. repeat split; [discriminate].
  - right. repeat split; [discriminate].
Qed.

(** Past the three header checks the decoder is its entry loop. *)
Lemma read_block_past_header
  (m : libfsapfs_container_physical_map_t) (data : list byte) (w : world) :
  sizeof_fsapfs_container_physical_map_t <= Z.of_nat (length data) ->
  Z.of_nat (length data) <= SSIZE_MAX ->
  block_object_type data = 0x4000000c ->
  block_number_of_entries data <= 101 ->
  read_block m data w = read_block_entries m data w.
Proof.
  intros Hmin Hmax Htype Hcount.
  unfold read_block_entries, read_block,
    libfsapfs_container_physical_map_read_data.
  replace (Z.of_nat (length data) <? sizeof_fsapfs_container_physical_map_t)
    with false by (symmetry; apply Z.ltb_ge; lia).
  replace (Z.of_nat (length data) >? SSIZE_MAX) with false
    by (symmetry; rewrite Z.gtb_ltb; apply Z.ltb_ge; lia).
  cbn [orb].
  fold (block_object_type data). rewrite Htype. cbn [Z.eqb Pos.eqb negb].
  fold (block_number_of_entries data).
  replace (block_number_of_entries data >? 101) with false
    by (symmetry; rewrite Z.gtb_ltb; apply Z.ltb_ge; lia).
  reflexivity.
Qed.

(** The errors of the entry loop. *)
Lemma read_data_entries_error (count : nat) :
  forall (data : list byte) (data_size data_offset : Z)
         (array : option libcdata_array_t) (w : world),
    let e := error (read_data_entries count data data_size data_offset array w)
    in
    e = []
    \/ e = [(LIBCERROR_ERROR_DOMAIN_RUNTIME,
             LIBCERROR_RUNTIME_ERROR_INITIALIZE_FAILED)]
    \/ e = [(LIBCERROR_ERROR_DOMAIN_IO, LIBCERROR_IO_ERROR_READ_FAILED)]
    \/ e = [(LIBCERROR_ERROR_DOMAIN_RUNTIME,
             LIBCERROR_RUNTIME_ERROR_APPEND_FAILED)].
Proof.
  induction count as [|count IH]; intros data data_size data_offset array w.
  - left. reflexivity.
  - cbn [read_data_entries].
    destruct (libfsapfs_container_physical_map_entry_initialize (Some None) w)
      as [[r1 e1] w1].
    destruct (negb (r1 =? 1)); [right; left; reflexivity |].
    destruct (libfsapfs_container_physical_map_entry_read_data _ _ _)
      as [r2 e2].
    destruct (negb (r2 =? 1)); [right; right; left; reflexivity |].
    destruct (libcdata_array_append_entry array e2 w1) as [[r3 a3] w3].
    destruct (negb (r3 =? 1)); [right; right; right; reflexivity |].
    apply IH.
Qed.

(** A valid block, decoded with memory to spare, appends its records. *)
Lemma read_block_valid
  (m : libfsapfs_container_physical_map_t) (array : libcdata_array_t)
  (data : list byte) (w : world) (count : nat) :
  entries_array m = Some array ->
  no_failure w ->
  sizeof_fsapfs_container_physical_map_t <= Z.of_nat (length data) ->
  Z.of_nat (length data) <= SSIZE_MAX ->
  block_object_type data = 0x4000000c ->
  block_number_of_entries data = Z.of_nat count ->
  (count <= 101)%nat ->
  40 + sizeof_fsapfs_container_physical_map_entry_t * Z.of_nat count
    <= Z.of_nat (length data) ->
  exists w',
    read_block m data w
    = {| result := 1; error := [];
         object :=
           Some {| entries_array :=
                     Some (array ++ map Some (block_entries count data 40)) |};
         rest := w' |}
    /\ no_failure w'.
Proof.
  intros Harray Hw Hmin Hmax Htype Hcount Hceil Hfit.
  rewrite read_block_past_header by (try assumption; lia).
  unfold read_block_entries.
  rewrite Hcount, Nat2Z.id, Harray.
  destruct (read_data_entries_ok count data (Z.of_nat (length data)) 40
              array w Hw) as [w' [E Hw']]; try assumption; try lia.
  exists w'. rewrite E. split; [reflexivity | exact Hw'].
Qed.

Lemma initialize_and_read_data_valid
  (data : list byte) (w : world) (count : nat) :
  no_failure w ->
  sizeof_fsapfs_container_physical_map_t <= Z.of_nat (length data) ->
  Z.of_nat (length data) <= SSIZE_MAX ->
  block_object_type data = 0x4000000c ->
  block_number_of_entries data = Z.of_nat count ->
  (count <= 101)%nat ->
  40 + sizeof_fsapfs_container_physical_map_entry_t * Z.of_nat count
    <= Z.of_nat (length data) ->
  exists w',
    initialize_and_read_data data w
    = {| result := 1; error := [];
         object :=
           Some {| entries_array :=
                     Some (map Some (block_entries count data 40)) |};
         rest := w' |}
    /\ no_failure w'.
Proof.
  intros Hw Hmin Hmax Htype Hcount Hceil Hfit.
  unfold initialize_and_read_data.
  destruct (initialize_no_failure w Hw) as [w1 [E1 Hw1]].
  rewrite E1. cbn [result object rest Z.eqb Pos.eqb negb].
  apply (read_block_valid fresh_map [] data w1 count); try assumption.
  reflexivity.
Qed.

(** A successful decode into a fresh map holds the records of the block
    and nothing else. *)
Lemma initialize_and_read_data_success (data : list byte) (w : world) :
  result (initialize_and_read_data data w) = 1 ->
  object (initialize_and_read_data data w)
  = Some {| entries_array :=
              Some (map Some
                      (block_entries
                         (Z.to_nat (block_number_of_entries data)) data 40)) |}.
Proof.
  unfold initialize_and_read_data.
  destruct (initialize_cases w) as [[Hr [He Ho]] | [Hr [He Ho]]];
    rewrite Hr; cbn [Z.eqb Pos.eqb negb].
  2:{ rewrite Hr. discriminate. }
  rewrite Ho.
  unfold libfsapfs_container_physical_map_read_data.
  destruct ((Z.of_nat (length data) <? sizeof_fsapfs_container_physical_map_t)
            || (Z.of_nat (length data) >? SSIZE_MAX));
    [cbn [result]; discriminate |].
  destruct (negb (byte_stream_copy_to_uint32_little_endian data
                    object_type_offset =? 0x4000000c));
    [cbn [result]; discriminate |].
  fold (block_number_of_entries data).
  destruct (block_number_of_entries data >? 101);
    [cbn [result]; discriminate |].
  cbn [result object fresh_map entries_array]. intros Hres.
  destruct (read_data_entries_prefix
              (Z.to_nat (block_number_of_entries data)) data
              (Z.of_nat (length data)) 40 (Some []) (rest (libfsapfs_container_physical_map_initialize (Some None) w)))
    as [k [Hobj [[_ [_ Hk]] | [Hneg _]]]].
  - rewrite Hobj. subst k. reflexivity.
  - rewrite Hres in Hneg. discriminate.
Qed.

(** A record the entry reader accepts lies inside the buffer: the
    [size_t] subtraction cannot have wrapped. *)
Lemma entry_read_data_accepted_fits
  (e : libfsapfs_container_physical_map_entry_t) (bytes : list byte)
  (data_size data_offset : Z)
  (e' : option libfsapfs_container_physical_map_entry_t) :
  0 <= data_size -> data_size <= SSIZE_MAX ->
  0 <= data_offset -> data_offset <= 2 ^ 62 ->
  libfsapfs_container_physical_map_entry_read_data
    (Some e) (Some bytes) (size_sub data_size data_offset) = (1, e') ->
  data_offset + sizeof_fsapfs_container_physical_map_entry_t <= data_size.
Proof.
  unfold libfsapfs_container_physical_map_entry_read_data,
    sizeof_fsapfs_container_physical_map_entry_t, SSIZE_MAX.
  intros H0 Hmax Hoff Hbound.
  destruct (size_sub data_size data_offset <? 40) eqn:Hlow;
    [cbn [orb]; intros E; inversion E |].
  destruct (size_sub data_size data_offset >? 2 ^ 63 - 1) eqn:Hhigh;
    [cbn [orb]; intros E; inversion E |].
  intros _. apply Z.ltb_ge in Hlow.
  rewrite Z.gtb_ltb in Hhigh. apply Z.ltb_ge in Hhigh.
  destruct (Z_le_gt_dec data_offset data_size) as [Hle | Hgt].
  - unfold size_sub, SIZE_MODULUS in Hlow.
    rewrite Z.mod_small in Hlow by lia. lia.
  - exfalso.
    assert (Hwrap : size_sub data_size data_offset
                    = data_size - data_offset + 2 ^ 64).
    { unfold size_sub, SIZE_MODULUS. symmetry.
      apply Z.mod_unique with (q := -1); lia. }
    rewrite Hwrap in Hhigh. lia.
Qed.

Lemma attempt_answer (w : world) : attempt w = (answer w 0, tl w).
Proof.
  destruct w; reflexivity.
Qed.

Lemma answer_tl (w : world) (i : nat) : answer (tl w) i = answer w (S i).
Proof.
  unfold answer. destruct w; [destruct i; reflexivity | reflexivity].
Qed.

(** A record that lies inside the buffer is never rejected, so a
    rejected record does not. *)
Lemma entry_read_data_rejected_short
  (e : libfsapfs_container_physical_map_entry_t) (data : list byte)
  (data_size data_offset : Z)
  (e' : option libfsapfs_container_physical_map_entry_t) :
  0 <= data_offset -> data_size <= SSIZE_MAX ->
  libfsapfs_container_physical_map_entry_read_data
    (Some e) (Some (skipn (Z.to_nat data_offset) data))
    (size_sub data_size data_offset) = (-1, e') ->
  data_size < data_offset + 40.
Proof.
  intros Hoff Hmax E.
  destruct (Z_lt_le_dec data_size (data_offset + 40)) as [Hlt | Hle];
    [exact Hlt |].
  rewrite entry_read_data_fits in E
    by (unfold sizeof_fsapfs_container_physical_map_entry_t; lia).
  discriminate.
Qed.

(** Where the entry loop fails.  When it does not return 1 it has decoded
    and appended the first [k] records, each of which took three
    successful fallible calls and lies inside the buffer, and it failed on
    record [k]: creating the entry failed, or the record does not lie inside
    the buffer, or appending it failed. *)
Lemma read_data_entries_failure (count : nat) :
  forall (data : list byte) (data_size data_offset : Z)
         (array : option libcdata_array_t) (w : world),
    0 <= data_size -> data_size <= SSIZE_MAX ->
    0 <= data_offset ->
    data_offset + 40 * Z.of_nat count <= 2 ^ 62 ->
    result (read_data_entries count data data_size data_offset array w)
    <> 1 ->
    exists k : nat,
      (k < count)%nat
      /\ object (read_data_entries count data data_size data_offset array w)
         = option_map
             (fun a => a ++ map Some (block_entries k data data_offset))
             array
      /\ (forall i : nat, (i < 3 * k)%nat -> answer w i = true)
      /\ ((0 < k)%nat -> data_offset + 40 * Z.of_nat k <= data_size)
      /\ ((error (read_data_entries count data data_size data_offset array w)
           = [(LIBCERROR_ERROR_DOMAIN_RUNTIME,
               LIBCERROR_RUNTIME_ERROR_INITIALIZE_FAILED)]
           /\ (answer w (3 * k) = false \/ answer w (3 * k + 1) = false))
          \/ (error
                (read_data_entries count data data_size data_offset array w)
              = [(LIBCERROR_ERROR_DOMAIN_IO, LIBCERROR_IO_ERROR_READ_FAILED)]
              /\ answer w (3 * k) = true /\ answer w (3 * k + 1) = true
              /\ data_size < data_offset + 40 * (Z.of_nat k + 1))
          \/ (error
                (read_data_entries count data data_size data_offset array w)
              = [(LIBCERROR_ERROR_DOMAIN_RUNTIME,
                  LIBCERROR_RUNTIME_ERROR_APPEND_FAILED)]
              /\ answer w (3 * k) = true /\ answer w (3 * k + 1) = true
              /\ data_offset + 40 * (Z.of_nat k + 1) <= data_size
              /\ (array = None \/ answer w (3 * k + 2) = false))).
Proof.
  induction count as [|count IH];
    intros data data_size data_offset array w H0 Hmax Hoff Hbound.
  - cbn. intros H. exfalso. apply H. reflexivity.
  - assert (Hnone :
      array = option_map
                (fun a => a ++ map Some (block_entries 0 data data_offset))
                array).
    { destruct array as [a|]; cbn; [rewrite app_nil_r|]; reflexivity. }
    cbn [read_data_entries].
    unfold libfsapfs_container_physical_map_entry_initialize.
    rewrite (attempt_answer w).
    destruct (answer w 0) eqn:A0; cbn [negb].
    2:{ intros _. cbn [object error]. exists O. split; [lia |]. split; [exact Hnone |].
        split; [intros i Hi; lia |]. split; [lia |].
        left. split; [reflexivity |]. left. exact A0. }
    rewrite (attempt_answer (tl w)), answer_tl.
    destruct (answer w 1) eqn:A1; cbn [negb].
    2:{ intros _. cbn [object error]. exists O. split; [lia |]. split; [exact Hnone |].
        split; [intros i Hi; lia |]. split; [lia |].
        left. split; [reflexivity |]. right. exact A1. }
    cbn [Z.eqb Pos.eqb negb].
    destruct (libfsapfs_container_physical_map_entry_read_data
                (Some {| object_identifier := 0; physical_address := 0 |})
                (Some (skipn (Z.to_nat data_offset) data))
                (size_sub data_size data_offset)) as [r2 e2] eqn:E2.
    destruct (entry_read_data_accepts _ _ _ _ _ _ E2) as [[-> ->] | ->].
    2:{ intros _. cbn [object error]. exists O. split; [lia |]. split; [exact Hnone |].
        split; [intros i Hi; lia |]. split; [lia |].
        right. left. split; [reflexivity |].
        split; [exact A0 |]. split; [exact A1 |].
        pose proof (entry_read_data_rejected_short _ _ _ _ _ Hoff Hmax E2).
        lia. }
    cbn [Z.eqb Pos.eqb negb].
    assert (Hfirst : data_offset + 40 <= data_size).
    { apply (entry_read_data_accepted_fits _ _ _ _ _ H0 Hmax Hoff) in E2;
        [exact E2 | lia]. }
    destruct array as [a|]; cbn [libcdata_array_append_entry].
    2:{ intros _. cbn [object error]. exists O. split; [lia |]. split; [exact Hnone |].
        split; [intros i Hi; lia |]. split; [lia |].
        right. right. split; [reflexivity |].
        split; [exact A0 |]. split; [exact A1 |].
        split; [lia |]. left. reflexivity. }
    rewrite (attempt_answer (tl (tl w))), !answer_tl.
    destruct (answer w 2) eqn:A2; cbn [Z.eqb Pos.eqb negb].
    2:{ intros _. cbn [object error]. exists O. split; [lia |].
        split; [exact Hnone |].
        split; [intros i Hi; lia |]. split; [lia |].
        right. right. split; [reflexivity |].
        split; [exact A0 |]. split; [exact A1 |].
        split; [lia |]. right. exact A2. }
    intros Hres.
    assert (Hanswer : forall i : nat,
              answer (tl (tl (tl w))) i = answer w (3 + i)).
    { intros i. rewrite !answer_tl. reflexivity. }
    destruct (IH data data_size
                (data_offset + sizeof_fsapfs_container_physical_map_entry_t)
                (Some (a ++ [Some (entry_at data data_offset)]))
                (tl (tl (tl w))) H0 Hmax)
      as [k [Hk [Hobj [Hbefore [Hinside Hfail]]]]];
      try (unfold sizeof_fsapfs_container_physical_map_entry_t; lia);
      try exact Hres.
    unfold sizeof_fsapfs_container_physical_map_entry_t in Hinside, Hfail.
    exists (S k). split; [lia |]. split.
    { rewrite Hobj. cbn [option_map block_entries map].
      rewrite <- app_assoc. reflexivity. }
    split.
    { intros i Hi.
      destruct i as [|[|[|i]]]; try assumption.
      change (S (S (S i))) with (3 + i)%nat. rewrite <- Hanswer.
      apply Hbefore. lia. }
    split; [intros _; destruct k as [|k']; [lia | specialize (Hinside ltac:(lia)); lia] |].
    replace (3 * S k)%nat with (3 + 3 * k)%nat by lia.
    replace (3 + 3 * k + 1)%nat with (3 + (3 * k + 1))%nat by lia.
    replace (3 + 3 * k + 2)%nat with (3 + (3 * k + 2))%nat by lia.
    rewrite <- !Hanswer.
    replace (data_offset + 40 * (Z.of_nat (S k) + 1))
      with (data_offset + 40 + 40 * (Z.of_nat k + 1)) by lia.
    destruct Hfail as [[He Ha] | [[He [Ha [Hb Hc]]] | [He [Ha [Hb [Hc Hd]]]]]].
    + left. split; [exact He | exact Ha].
    + right. left. repeat split; assumption.
    + right. right. split; [exact He |]. split; [exact Ha |].
      split; [exact Hb |]. split; [exact Hc |].
      destruct Hd as [Hd | Hd]; [discriminate | right; exact Hd].
Qed.

(** ** The properties of the specification *)

(** C1 (round trip).  A buffer that is a valid physical-map block (large
    enough, right type tag, [count <= 101] whole entry records, pairwise
    distinct object identifiers) decodes successfully into a freshly
    initialized map when memory is available, and looking up the object
    identifier of any of its entries returns 1 with the physical address of
    that very entry. *)
Theorem read_data_then_lookup_roundtrip
  (data : list byte) (w : world) (count : nat) (value : Z) :
  no_failure w ->
  sizeof_fsapfs_container_physical_map_t <= Z.of_nat (length data) ->
  Z.of_nat (length data) <= SSIZE_MAX ->
  block_object_type data = 0x4000000c ->
  block_number_of_entries data = Z.of_nat count ->
  (count <= 101)%nat ->
  40 + sizeof_fsapfs_container_physical_map_entry_t * Z.of_nat count
    <= Z.of_nat (length data) ->
  NoDup (map (fun i => Entry.object_identifier (block_entry data i))
           (seq 0 count)) ->
  result (initialize_and_read_data data w) = 1
  /\ error (initialize_and_read_data data w) = []
  /\ forall i : nat,
       (i < count)%nat ->
       let found :=
         libfsapfs_container_physical_map_get_physical_address_by_object_identifier
           (object (initialize_and_read_data data w))
           (Entry.object_identifier (block_entry data i)) (Some value) in
       lookup_result found = 1
       /\ lookup_error found = []
       /\ lookup_physical_address found
          = Some (Entry.physical_address (block_entry data i)).
Proof.
  intros Hw Hmin Hmax Htype Hcount Hceil Hfit Hnodup.
  destruct (initialize_and_read_data_valid data w count)
    as [w' [E _]]; try assumption.
  rewrite E. cbn [result error object].
  split; [reflexivity |]. split; [reflexivity |].
  intros i Hi. cbv zeta.
  rewrite get_physical_address_entries_of.
  cbn [lookup_result lookup_error lookup_physical_address].
  assert (Hdistinct :
    NoDup (map Entry.object_identifier (block_entries count data 40))).
  { replace (map Entry.object_identifier (block_entries count data 40))
      with (map (fun i => Entry.object_identifier (block_entry data i))
              (seq 0 count)); [exact Hnodup |].
    apply nth_error_ext. intros k.
    rewrite !nth_error_map.
    destruct (Nat.lt_ge_cases k count) as [Hk | Hk].
    - rewrite (block_entry_nth count data k Hk).
      rewrite (nth_error_nth' _ 0%nat) by (rewrite length_seq; exact Hk).
      rewrite seq_nth by exact Hk. reflexivity.
    - replace (nth_error (seq 0 count) k) with (@None nat)
        by (symmetry; apply nth_error_None; rewrite length_seq; exact Hk).
      replace (nth_error (block_entries count data 40) k)
        with (@None libfsapfs_container_physical_map_entry_t)
        by (symmetry; apply nth_error_None;
            rewrite block_entries_length; exact Hk).
      reflexivity. }
  rewrite (first_match_distinct _ Hdistinct i (block_entry data i)
             (block_entry_nth count data i Hi)).
  repeat split; reflexivity.
Qed.

(** C2 (type tag).  On a buffer of sufficient size, an [object_type] other
    than [0x4000000c] makes the decoder return -1 with the unsupported-value
    error ([UnsupportedType]), the map and the world untouched.  With
    [object_type] equal to [0x4000000c] the check passes: the decoder goes
    on to the entry ceiling and, past it, to its entry loop, and sets no
    unsupported-value error on the way. *)
Theorem read_data_object_type_check
  (m : libfsapfs_container_physical_map_t) (data : list byte) (w : world) :
  sizeof_fsapfs_container_physical_map_t <= Z.of_nat (length data) ->
  Z.of_nat (length data) <= SSIZE_MAX ->
  (block_object_type data <> 0x4000000c ->
   result (read_block m data w) = -1
   /\ error (read_block m data w)
      = [(LIBCERROR_ERROR_DOMAIN_RUNTIME,
          LIBCERROR_RUNTIME_ERROR_UNSUPPORTED_VALUE)]
   /\ error_kind_of (error (read_block m data w)) = Some UnsupportedType
   /\ object (read_block m data w) = Some m
   /\ rest (read_block m data w) = w)
  /\ (block_object_type data = 0x4000000c ->
      read_block m data w
      = (if block_number_of_entries data >? 101
         then {| result := -1;
                 error := [(LIBCERROR_ERROR_DOMAIN_RUNTIME,
                            LIBCERROR_RUNTIME_ERROR_VALUE_OUT_OF_BOUNDS)];
                 object := Some m; rest := w |}
         else read_block_entries m data w)
      /\ ~ In (LIBCERROR_ERROR_DOMAIN_RUNTIME,
               LIBCERROR_RUNTIME_ERROR_UNSUPPORTED_VALUE)
             (error (read_block m data w))).
Proof.
  intros Hmin Hmax. split.
  - intros Htype.
    unfold read_block, libfsapfs_container_physical_map_read_data.
    replace (Z.of_nat (length data) <? sizeof_fsapfs_container_physical_map_t)
      with false by (symmetry; apply Z.ltb_ge; lia).
    replace (Z.of_nat (length data) >? SSIZE_MAX) with false
      by (symmetry; rewrite Z.gtb_ltb; apply Z.ltb_ge; lia).
    cbn [orb]. fold (block_object_type data).
    destruct (Z.eqb_spec (block_object_type data) 0x4000000c) as [Heq | _];
      [contradiction |].
    cbn [negb]. repeat split; reflexivity.
  - intros Htype.
    assert (Hstep :
      read_block m data w
      = (if block_number_of_entries data >? 101
         then {| result := -1;
                 error := [(LIBCERROR_ERROR_DOMAIN_RUNTIME,
                            LIBCERROR_RUNTIME_ERROR_VALUE_OUT_OF_BOUNDS)];
                 object := Some m; rest := w |}
         else read_block_entries m data w)).
    { unfold read_block_entries, read_block,
        libfsapfs_container_physical_map_read_data.
      replace (Z.of_nat (length data) <? sizeof_fsapfs_container_physical_map_t)
        with false by (symmetry; apply Z.ltb_ge; lia).
      replace (Z.of_nat (length data) >? SSIZE_MAX) with false
        by (symmetry; rewrite Z.gtb_ltb; apply Z.ltb_ge; lia).
      cbn [orb]. fold (block_object_type data). rewrite Htype.
      cbn [Z.eqb Pos.eqb negb]. fold (block_number_of_entries data).
      reflexivity. }
    split; [exact Hstep |]. rewrite Hstep.
    destruct (block_number_of_entries data >? 101).
    + simpl. intuition discriminate.
    + unfold read_block_entries. cbn [error].
      destruct (read_data_entries_error
                  (Z.to_nat (block_number_of_entries data)) data
                  (Z.of_nat (length data)) 40 (entries_array m) w)
        as [E | [E | [E | E]]]; rewrite E; simpl; intuition discriminate.
Qed.

(** C3 (entry ceiling).  On a buffer of sufficient size with the right type
    tag, [number_of_entries > 101] makes the decoder return -1 with the
    value-out-of-bounds error ([OutOfBounds]) before any entry is created
    or decoded: the map and the world are untouched.  A count of at most 101
    passes: the decoder goes on to its entry loop and sets no
    value-out-of-bounds error there. *)
Theorem read_data_entry_ceiling
  (m : libfsapfs_container_physical_map_t) (data : list byte) (w : world) :
  sizeof_fsapfs_container_physical_map_t <= Z.of_nat (length data) ->
  Z.of_nat (length data) <= SSIZE_MAX ->
  block_object_type data = 0x4000000c ->
  (block_number_of_entries data > 101 ->
   result (read_block m data w) = -1
   /\ error (read_block m data w)
      = [(LIBCERROR_ERROR_DOMAIN_RUNTIME,
          LIBCERROR_RUNTIME_ERROR_VALUE_OUT_OF_BOUNDS)]
   /\ error_kind_of (error (read_block m data w)) = Some OutOfBounds
   /\ object (read_block m data w) = Some m
   /\ rest (read_block m data w) = w)
  /\ (block_number_of_entries data <= 101 ->
      read_block m data w = read_block_entries m data w
      /\ ~ In (LIBCERROR_ERROR_DOMAIN_RUNTIME,
               LIBCERROR_RUNTIME_ERROR_VALUE_OUT_OF_BOUNDS)
             (error (read_block m data w))).
Proof.
  intros Hmin Hmax Htype. split.
  - intros Hgt.
    unfold read_block, libfsapfs_container_physical_map_read_data.
    replace (Z.of_nat (length data) <? sizeof_fsapfs_container_physical_map_t)
      with false by (symmetry; apply Z.ltb_ge; lia).
    replace (Z.of_nat (length data) >? SSIZE_MAX) with false
      by (symmetry; rewrite Z.gtb_ltb; apply Z.ltb_ge; lia).
    cbn [orb]. fold (block_object_type data). rewrite Htype.
    cbn [Z.eqb Pos.eqb negb]. fold (block_number_of_entries data).
    replace (block_number_of_entries data >? 101) with true
      by (symmetry; rewrite Z.gtb_ltb; apply Z.ltb_lt; lia).
    repeat split; reflexivity.
  - intros Hle.
    rewrite read_block_past_header by assumption.
    split; [reflexivity |].
    unfold read_block_entries. cbn [error].
    destruct (read_data_entries_error
                (Z.to_nat (block_number_of_entries data)) data
                (Z.of_nat (length data)) 40 (entries_array m) w)
      as [E | [E | [E | E]]]; rewrite E; simpl; intuition discriminate.
Qed.

(** C4, as amended.  A buffer shorter than 40 bytes is rejected: the
    decoder returns -1 with the value-out-of-bounds error, the kind the
    entry ceiling reports too ([OutOfBounds]), and leaves the map and the
    world untouched. *)
Theorem read_data_short_buffer
  (m : libfsapfs_container_physical_map_t) (data : list byte) (w : world) :
  40 <= sizeof_fsapfs_container_physical_map_t ->
  Z.of_nat (length data) < 40 ->
  result (read_block m data w) = -1
  /\ error (read_block m data w)
     = [(LIBCERROR_ERROR_DOMAIN_RUNTIME,
         LIBCERROR_RUNTIME_ERROR_VALUE_OUT_OF_BOUNDS)]
  /\ error_kind_of (error (read_block m data w)) = Some OutOfBounds
  /\ object (read_block m data w) = Some m
  /\ rest (read_block m data w) = w.
Proof.
  intros Hsize Hshort.
  unfold read_block, libfsapfs_container_physical_map_read_data.
  replace (Z.of_nat (length data) <? sizeof_fsapfs_container_physical_map_t)
    with true by (symmetry; apply Z.ltb_lt; lia).
  cbn [orb]. repeat split; reflexivity.
Qed.

(** C5 (lookup miss).  On a map that a successful decode produced, looking
    up an object identifier that no entry of the map carries returns 0, the
    "no such value" result, with no error set; the value behind
    [physical_address] and the map stay as they were. *)
Theorem lookup_miss_returns_zero
  (data : list byte) (w : world)
  (m : libfsapfs_container_physical_map_t) (identifier value : Z) :
  result (initialize_and_read_data data w) = 1 ->
  object (initialize_and_read_data data w) = Some m ->
  (forall a e,
      entries_array m = Some a -> In (Some e) a ->
      Entry.object_identifier e <> identifier) ->
  libfsapfs_container_physical_map_get_physical_address_by_object_identifier
    (Some m) identifier (Some value)
  = {| lookup_result := 0; lookup_error := [];
       lookup_map := Some m; lookup_physical_address := Some value |}.
Proof.
  intros Hres Hobj Habsent.
  rewrite (initialize_and_read_data_success data w Hres) in Hobj.
  inversion Hobj; subst m; clear Hobj.
  rewrite get_physical_address_entries_of.
  rewrite first_match_absent; [reflexivity |].
  intros e Hin. apply (Habsent _ e eq_refl).
  apply in_map. exact Hin.
Qed.

(** C6, as amended.  A block that is valid but for repeated object
    identifiers decodes successfully: every record is kept, in on-disk
    order, duplicates included, and looking up the identifier of entry [i]
    returns 1 with the physical address of the earliest entry [j <= i] that
    carries that identifier. *)
Theorem read_data_keeps_duplicates
  (data : list byte) (w : world) (count : nat) (value : Z) :
  no_failure w ->
  sizeof_fsapfs_container_physical_map_t <= Z.of_nat (length data) ->
  Z.of_nat (length data) <= SSIZE_MAX ->
  block_object_type data = 0x4000000c ->
  block_number_of_entries data = Z.of_nat count ->
  (count <= 101)%nat ->
  40 + sizeof_fsapfs_container_physical_map_entry_t * Z.of_nat count
    <= Z.of_nat (length data) ->
  result (initialize_and_read_data data w) = 1
  /\ error (initialize_and_read_data data w) = []
  /\ holds_entries (object (initialize_and_read_data data w))
       (block_entries count data 40)
  /\ forall i : nat,
       (i < count)%nat ->
       exists j : nat,
         (j <= i)%nat
         /\ Entry.object_identifier (block_entry data j)
            = Entry.object_identifier (block_entry data i)
         /\ (forall k : nat,
               (k < j)%nat ->
               Entry.object_identifier (block_entry data k)
               <> Entry.object_identifier (block_entry data i))
         /\ let found :=
              libfsapfs_container_physical_map_get_physical_address_by_object_identifier
                (object (initialize_and_read_data data w))
                (Entry.object_identifier (block_entry data i)) (Some value) in
            lookup_result found = 1
            /\ lookup_physical_address found
               = Some (Entry.physical_address (block_entry data j)).
Proof.
  intros Hw Hmin Hmax Htype Hcount Hceil Hfit.
  destruct (initialize_and_read_data_valid data w count)
    as [w' [E _]]; try assumption.
  rewrite E. cbn [result error object].
  split; [reflexivity |]. split; [reflexivity |].
  split; [reflexivity |].
  intros i Hi.
  pose proof (block_entry_nth count data i Hi) as Hnth_i.
  destruct (first_match_present (block_entries count data 40)
              (Entry.object_identifier (block_entry data i))) as [e He].
  { exists (block_entry data i). split; [| reflexivity].
    eapply nth_error_In. exact Hnth_i. }
  destruct (first_match_earliest _ _ e He) as [j [Hnth_j [Hid Hbefore]]].
  assert (Hj : (j < count)%nat).
  { rewrite <- (block_entries_length count data 40).
    apply nth_error_Some. rewrite Hnth_j. discriminate. }
  rewrite (block_entry_nth count data j Hj) in Hnth_j.
  inversion Hnth_j; subst e; clear Hnth_j.
  exists j. split.
  { destruct (Nat.le_gt_cases j i) as [Hle | Hgt]; [exact Hle |].
    exfalso. apply (Hbefore i (block_entry data i) Hgt Hnth_i). reflexivity. }
  split; [exact Hid |]. split.
  { intros k Hk. apply (Hbefore k (block_entry data k) Hk).
    apply block_entry_nth. lia. }
  cbv zeta. rewrite get_physical_address_entries_of. rewrite He.
  split; reflexivity.
Qed.

(** C7, as amended.  When the decoder fails in its entry loop (the header
    checks passed, yet the result is not 1), it returns -1 with an error
    set, and the array of the map is the array from before the call
    followed by exactly the [k] records that precede the failing one, in
    on-disk order; nothing already appended is rolled back.  Record [k] is
    the failing one: the [k] records before it each took three successful
    fallible calls (two to create the entry, one to append it) and lie
    inside the buffer, and on record [k] either creating the entry failed,
    or the record does not lie inside the buffer, or appending it failed. *)
Theorem read_data_failure_keeps_decoded_prefix
  (m : libfsapfs_container_physical_map_t) (data : list byte) (w : world) :
  sizeof_fsapfs_container_physical_map_t <= Z.of_nat (length data) ->
  Z.of_nat (length data) <= SSIZE_MAX ->
  block_object_type data = 0x4000000c ->
  block_number_of_entries data <= 101 ->
  result (read_block m data w) <> 1 ->
  result (read_block m data w) = -1
  /\ error (read_block m data w) <> []
  /\ exists k : nat,
       Z.of_nat k < block_number_of_entries data
       /\ object (read_block m data w)
          = Some {| entries_array :=
                      option_map
                        (fun a => a ++ map Some (block_entries k data 40))
                        (entries_array m) |}
       /\ (forall i : nat, (i < 3 * k)%nat -> answer w i = true)
       /\ (forall i : nat,
             (i < k)%nat ->
             40 + 40 * (Z.of_nat i + 1) <= Z.of_nat (length data))
       /\ ((error (read_block m data w)
            = [(LIBCERROR_ERROR_DOMAIN_RUNTIME,
                LIBCERROR_RUNTIME_ERROR_INITIALIZE_FAILED)]
            /\ (answer w (3 * k) = false \/ answer w (3 * k + 1) = false))
           \/ (error (read_block m data w)
               = [(LIBCERROR_ERROR_DOMAIN_IO, LIBCERROR_IO_ERROR_READ_FAILED)]
               /\ answer w (3 * k) = true /\ answer w (3 * k + 1) = true
               /\ Z.of_nat (length data) < 40 + 40 * (Z.of_nat k + 1))
           \/ (error (read_block m data w)
               = [(LIBCERROR_ERROR_DOMAIN_RUNTIME,
                   LIBCERROR_RUNTIME_ERROR_APPEND_FAILED)]
               /\ answer w (3 * k) = true /\ answer w (3 * k + 1) = true
               /\ 40 + 40 * (Z.of_nat k + 1) <= Z.of_nat (length data)
               /\ (entries_array m = None
                   \/ answer w (3 * k + 2) = false))).
Proof.
  intros Hmin Hmax Htype Hceil.
  rewrite read_block_past_header by assumption.
  unfold read_block_entries. cbn [result error object]. intros Hres.
  destruct (read_data_entries_failure
              (Z.to_nat (block_number_of_entries data)) data
              (Z.of_nat (length data)) 40 (entries_array m) w)
    as [k [Hk [Hobj [Hbefore [Hinside Hfail]]]]];
    try lia; try exact Hres.
  split.
  { destruct (read_data_entries_prefix
                (Z.to_nat (block_number_of_entries data)) data
                (Z.of_nat (length data)) 40 (entries_array m) w)
      as [k' [_ [[H1 _] | [H1 _]]]]; [contradiction | exact H1]. }
  split.
  { destruct Hfail as [[He _] | [[He _] | [He _]]]; rewrite He; discriminate. }
  exists k. split; [lia |]. split; [rewrite Hobj; reflexivity |].
  split; [exact Hbefore |]. split; [| exact Hfail].
  intros i Hi. specialize (Hinside ltac:(lia)). lia.
Qed.

(** C8 (idempotence).  Decoding the same buffer twice, each time into a
    freshly initialized map and each time with memory available, gives the
    same result, the same error and the same map, entry for entry. *)
Theorem read_data_twice_equal (data : list byte) (w1 w2 : world) :
  no_failure w1 -> no_failure w2 ->
  result (initialize_and_read_data data w1)
  = result (initialize_and_read_data data w2)
  /\ error (initialize_and_read_data data w1)
     = error (initialize_and_read_data data w2)
  /\ object (initialize_and_read_data data w1)
     = object (initialize_and_read_data data w2).
Proof.
  intros H1 H2. unfold initialize_and_read_data.
  destruct (initialize_no_failure w1 H1) as [v1 [E1 Hv1]].
  destruct (initialize_no_failure w2 H2) as [v2 [E2 Hv2]].
  rewrite E1, E2. cbn [result object rest Z.eqb Pos.eqb negb].
  unfold libfsapfs_container_physical_map_read_data.
  destruct ((Z.of_nat (length data) <? sizeof_fsapfs_container_physical_map_t)
            || (Z.of_nat (length data) >? SSIZE_MAX));
    [repeat split; reflexivity |].
  destruct (negb (byte_stream_copy_to_uint32_little_endian data
                    object_type_offset =? 0x4000000c));
    [repeat split; reflexivity |].
  destruct (byte_stream_copy_to_uint32_little_endian data
              number_of_entries_offset >? 101);
    [repeat split; reflexivity |].
  cbn [result error object].
  destruct (read_data_entries_world
              (Z.to_nat (byte_stream_copy_to_uint32_little_endian data
                           number_of_entries_offset))
              data (Z.of_nat (length data)) 40
              (entries_array fresh_map) v1 v2 Hv1 Hv2) as [Hr [He Ho]].
  split; [exact Hr |]. split; [exact He |]. rewrite Ho. reflexivity.
Qed.

(** C9 (the lookup does not touch the map).  Whatever the map, the object
    identifier and the output pointer, and whether the lookup hits, misses
    or fails, the map behind [container_physical_map] is afterwards what it
    was before: the same array with the same entries. *)
Theorem lookup_leaves_map_unchanged
  (container_physical_map : option libfsapfs_container_physical_map_t)
  (identifier : Z) (physical_address : option Z) :
  lookup_map
    (libfsapfs_container_physical_map_get_physical_address_by_object_identifier
       container_physical_map identifier physical_address)
  = container_physical_map.
Proof.
  unfold libfsapfs_container_physical_map_get_physical_address_by_object_identifier.
  destruct container_physical_map as [m|]; [| reflexivity].
  destruct physical_address as [value|]; [| reflexivity].
  destruct (libcdata_array_get_number_of_entries (entries_array m))
    as [r number_of_entries].
  destruct (negb (r =? 1)); [reflexivity |].
  pose proof (get_physical_address_entries_frame
                (Z.to_nat number_of_entries) 0 (entries_array m)
                identifier value) as H.
  destruct (get_physical_address_entries (Z.to_nat number_of_entries) 0
              (entries_array m) identifier value) as [[[r' e'] array'] value'].
  destruct H as [Harray _]. cbn [lookup_map]. rewrite Harray.
  destruct m; reflexivity.
Qed.

(** C10 (the output is written on success only).  The lookup returns 1, 0
    or -1.  When it does not return 1 the value behind [physical_address] is
    what it was before the call (a [NULL] pointer included); when it returns
    1 that value is the physical address of an entry of the map that carries
    the object identifier. *)
Theorem lookup_writes_output_on_success_only
  (container_physical_map : option libfsapfs_container_physical_map_t)
  (identifier : Z) (physical_address : option Z) :
  let found :=
    libfsapfs_container_physical_map_get_physical_address_by_object_identifier
      container_physical_map identifier physical_address in
  (lookup_result found = 1 \/ lookup_result found = 0
   \/ lookup_result found = -1)
  /\ (lookup_result found <> 1 ->
      lookup_physical_address found = physical_address)
  /\ (lookup_result found = 1 ->
      exists m a entry,
        container_physical_map = Some m
        /\ entries_array m = Some a
        /\ In (Some entry) a
        /\ Entry.object_identifier entry = identifier
        /\ lookup_physical_address found
           = Some (Entry.physical_address entry)).
Proof.
  unfold libfsapfs_container_physical_map_get_physical_address_by_object_identifier.
  destruct container_physical_map as [m|];
    [| cbn; repeat split; try tauto; intros H; discriminate].
  destruct physical_address as [value|];
    [| cbn; repeat split; try tauto; intros H; discriminate].
  destruct (libcdata_array_get_number_of_entries (entries_array m))
    as [r number_of_entries].
  destruct (negb (r =? 1));
    [cbn; repeat split; try tauto; intros H; discriminate |].
  pose proof (get_physical_address_entries_frame
                (Z.to_nat number_of_entries) 0 (entries_array m)
                identifier value) as H.
  destruct (get_physical_address_entries (Z.to_nat number_of_entries) 0
              (entries_array m) identifier value) as [[[r' e'] array'] value'].
  destruct H as [_ [Hcases [Hmiss Hhit]]].
  cbn [lookup_result lookup_physical_address]. split; [exact Hcases |]. split.
  - intros Hne. rewrite (Hmiss Hne). reflexivity.
  - intros Heq. destruct (Hhit Heq) as [a [entry [Ha [Hin [Hid Hval]]]]].
    exists m, a, entry. rewrite Hval. repeat split; assumption.
Qed.

(** ** Further properties of the code *)

(** *** Little-endian fields *)

Lemma uint8_range (b : byte) : 0 <= uint8 b < 256.
Proof.
  unfold uint8. pose proof (Byte.to_N_bounded b) as H. lia.
Qed.

Lemma byte_at_range (data : list byte) (offset i : Z) :
  0 <= byte_at data offset i < 256.
Proof.
  unfold byte_at. apply uint8_range.
Qed.

Lemma byte_at_shift (data : list byte) (offset k i : Z) :
  byte_at data (offset + k) i = byte_at data offset (k + i).
Proof.
  unfold byte_at. do 3 f_equal. lia.
Qed.

(** Shifting a value up by one byte and or-ing a byte in is an addition. *)
Lemma lor_shiftl_byte (a b : Z) :
  0 <= a -> 0 <= b < 256 -> Z.lor (Z.shiftl a 8) b = b + 256 * a.
Proof.
  intros Ha Hb.
  assert (Hland : Z.land (Z.shiftl a 8) b = 0).
  { destruct (Z.eq_dec b 0) as [-> | Hnz]; [apply Z.land_0_r |].
    apply Z.bits_inj'. intros n Hn.
    rewrite Z.land_spec, Z.bits_0.
    destruct (Z.lt_ge_cases n 8) as [Hlt | Hge].
    - rewrite Z.shiftl_spec_low by exact Hlt. reflexivity.
    - rewrite (Z.bits_above_log2 b n); [apply andb_false_r | lia |].
      apply Z.lt_le_trans with 8; [| exact Hge].
      apply Z.log2_lt_pow2; [lia |]. change (2 ^ 8) with 256. lia. }
  pose proof (Z.add_lor_land (Z.shiftl a 8) b) as Hadd.
  rewrite Hland, Z.add_0_r in Hadd. rewrite Hadd.
  rewrite Z.shiftl_mul_pow2 by lia. change (2 ^ 8) with 256. lia.
Qed.

Lemma little_endian_sum_range (width : nat) :
  forall (data : list byte) (offset : Z),
    0 <= little_endian_sum data offset width < 256 ^ Z.of_nat width.
Proof.
  induction width as [|width IH]; intros data offset.
  - simpl. lia.
  - cbn [little_endian_sum].
    pose proof (byte_at_range data offset 0) as Hb.
    pose proof (IH data (offset + 1)) as Hs.
    rewrite Nat2Z.inj_succ, Z.pow_succ_r by lia. lia.
Qed.

Lemma uint32_little_endian_sum (data : list byte) (offset : Z) :
  byte_stream_copy_to_uint32_little_endian data offset
  = little_endian_sum data offset 4.
Proof.
  unfold byte_stream_copy_to_uint32_little_endian. cbv zeta.
  cbn [little_endian_sum].
  rewrite !byte_at_shift. cbn [Z.add Pos.add Pos.succ].
  pose proof (byte_at_range data offset 0).
  pose proof (byte_at_range data offset 1).
  pose proof (byte_at_range data offset 2).
  pose proof (byte_at_range data offset 3).
  rewrite (lor_shiftl_byte (byte_at data offset 3)) by lia.
  rewrite (lor_shiftl_byte _ (byte_at data offset 1)) by lia.
  rewrite (lor_shiftl_byte _ (byte_at data offset 0)) by lia.
  lia.
Qed.

Lemma uint64_little_endian_sum (data : list byte) (offset : Z) :
  byte_stream_copy_to_uint64_little_endian data offset
  = little_endian_sum data offset 8.
Proof.
  unfold byte_stream_copy_to_uint64_little_endian. cbv zeta.
  cbn [little_endian_sum].
  rewrite !byte_at_shift. cbn [Z.add Pos.add Pos.succ].
  pose proof (byte_at_range data offset 0).
  pose proof (byte_at_range data offset 1).
  pose proof (byte_at_range data offset 2).
  pose proof (byte_at_range data offset 3).
  pose proof (byte_at_range data offset 4).
  pose proof (byte_at_range data offset 5).
  pose proof (byte_at_range data offset 6).
  pose proof (byte_at_range data offset 7).
  rewrite (lor_shiftl_byte (byte_at data offset 7)) by lia.
  rewrite (lor_shiftl_byte _ (byte_at data offset 5)) by lia.
  rewrite (lor_shiftl_byte _ (byte_at data offset 4)) by lia.
  rewrite (lor_shiftl_byte _ (byte_at data offset 3)) by lia.
  rewrite (lor_shiftl_byte _ (byte_at data offset 2)) by lia.
  rewrite (lor_shiftl_byte _ (byte_at data offset 1)) by lia.
  rewrite (lor_shiftl_byte _ (byte_at data offset 0)) by lia.
  lia.
Qed.

(** The decoded fields as sums, with their ranges. *)
Lemma decoded_fields_sum_and_range (data : list byte) (offset : Z) :
  block_object_type data = little_endian_sum data 24 4
  /\ block_number_of_entries data = little_endian_sum data 36 4
  /\ 0 <= block_object_type data < 2 ^ 32
  /\ 0 <= block_number_of_entries data < 2 ^ 32
  /\ Entry.object_identifier (entry_at data offset)
     = little_endian_sum (skipn (Z.to_nat offset) data)
         entry_object_identifier_offset 8
  /\ Entry.physical_address (entry_at data offset)
     = little_endian_sum (skipn (Z.to_nat offset) data)
         entry_physical_address_offset 8
  /\ 0 <= Entry.object_identifier (entry_at data offset) < 2 ^ 64
  /\ 0 <= Entry.physical_address (entry_at data offset) < 2 ^ 64.
Proof.
  unfold block_object_type, block_number_of_entries, entry_at,
    object_type_offset, number_of_entries_offset.
  cbn [Entry.object_identifier Entry.physical_address].
  rewrite !uint32_little_endian_sum, !uint64_little_endian_sum.
  pose proof (little_endian_sum_range 4 data 24) as H1.
  pose proof (little_endian_sum_range 4 data 36) as H2.
  pose proof (little_endian_sum_range 8 (skipn (Z.to_nat offset) data)
                entry_object_identifier_offset) as H3.
  pose proof (little_endian_sum_range 8 (skipn (Z.to_nat offset) data)
                entry_physical_address_offset) as H4.
  change (256 ^ Z.of_nat 4) with (2 ^ 32) in H1, H2.
  change (256 ^ Z.of_nat 8) with (2 ^ 64) in H3, H4.
  repeat split; try reflexivity; lia.
Qed.

(** X1.  The type tag and the entry count of a block are the little-endian
    values of bytes 24..27 and 36..39, byte [i] weighing [256 ^ i], and so
    lie in the range of a 32-bit unsigned integer; the two fields of a
    decoded entry are the little-endian values of the eight bytes at their
    sub-offsets and lie in the range of a 64-bit unsigned integer. *)
Theorem decoded_fields_little_endian (data : list byte) (offset : Z) :
  block_object_type data = little_endian_sum data 24 4
  /\ block_number_of_entries data = little_endian_sum data 36 4
  /\ 0 <= block_object_type data < 2 ^ 32
  /\ 0 <= block_number_of_entries data < 2 ^ 32
  /\ Entry.object_identifier (entry_at data offset)
     = little_endian_sum (skipn (Z.to_nat offset) data)
         entry_object_identifier_offset 8
  /\ Entry.physical_address (entry_at data offset)
     = little_endian_sum (skipn (Z.to_nat offset) data)
         entry_physical_address_offset 8
  /\ 0 <= Entry.object_identifier (entry_at data offset) < 2 ^ 64
  /\ 0 <= Entry.physical_address (entry_at data offset) < 2 ^ 64.
Proof.
  destruct (decoded_fields_sum_and_range data offset)
    as [Htype [Hcount [Htype_range [Hcount_range
         [Hid [Haddress [Hid_range Haddress_range]]]]]]].
  split; [exact Htype |]. split; [exact Hcount |].
  split; [exact Htype_range |]. split; [exact Hcount_range |].
  split; [exact Hid |]. split; [exact Haddress |].
  split; [exact Hid_range | exact Haddress_range].
Qed.

(** *** What the decoder accepts and what it leaves in the map *)

(** When the loop returns 1, every record it was asked for lies inside the
    buffer. *)
Lemma read_data_entries_success_fits (count : nat) :
  forall (data : list byte) (data_size data_offset : Z)
         (array : option libcdata_array_t) (w : world),
    0 <= data_size -> data_size <= SSIZE_MAX ->
    0 <= data_offset ->
    data_offset
      + sizeof_fsapfs_container_physical_map_entry_t * Z.of_nat count
      <= 2 ^ 62 ->
    (0 < count)%nat ->
    result (read_data_entries count data data_size data_offset array w) = 1 ->
    data_offset
      + sizeof_fsapfs_container_physical_map_entry_t * Z.of_nat count
      <= data_size.
Proof.
  induction count as [|count IH];
    intros data data_size data_offset array w H0 Hmax Hoff Hbound Hpos;
    [lia |].
  cbn [read_data_entries].
  destruct (libfsapfs_container_physical_map_entry_initialize (Some None) w)
    as [[r1 e1] w1] eqn:E1.
  destruct (entry_initialize_cases _ _ _ _ E1) as [[-> [e0 ->]] | ->];
    [| cbn; discriminate].
  cbn [Z.eqb Pos.eqb negb].
  destruct (libfsapfs_container_physical_map_entry_read_data (Some e0)
              (Some (skipn (Z.to_nat data_offset) data))
              (size_sub data_size data_offset)) as [r2 e2] eqn:E2.
  destruct (entry_read_data_accepts _ _ _ _ _ _ E2) as [[-> ->] | ->];
    [| cbn; discriminate].
  cbn [Z.eqb Pos.eqb negb].
  assert (Hfirst :
    data_offset + sizeof_fsapfs_container_physical_map_entry_t <= data_size).
  { apply (entry_read_data_accepted_fits _ _ _ _ _ H0 Hmax Hoff) in E2;
      [exact E2 |].
    unfold sizeof_fsapfs_container_physical_map_entry_t in Hbound. lia. }
  destruct (libcdata_array_append_entry array
              (Some (entry_at data data_offset)) w1) as [[r3 a3] w3].
  destruct (negb (r3 =? 1)); [cbn; discriminate |].
  intros Hres.
  destruct count as [|count'].
  - unfold sizeof_fsapfs_container_physical_map_entry_t in *. lia.
  - specialize (IH data data_size
                  (data_offset + sizeof_fsapfs_container_physical_map_entry_t)
                  a3 w3 H0 Hmax).
    unfold sizeof_fsapfs_container_physical_map_entry_t in *.
    specialize (IH ltac:(lia) ltac:(lia) ltac:(lia) Hres). lia.
Qed.

(** What a successful decode has established. *)
Lemma read_block_success_in_bounds
  (m : libfsapfs_container_physical_map_t) (data : list byte) (w : world) :
  40 <= sizeof_fsapfs_container_physical_map_t ->
  result (read_block m data w) = 1 ->
  sizeof_fsapfs_container_physical_map_t <= Z.of_nat (length data)
  /\ Z.of_nat (length data) <= SSIZE_MAX
  /\ block_object_type data = 0x4000000c
  /\ block_number_of_entries data <= 101
  /\ 40 + sizeof_fsapfs_container_physical_map_entry_t
          * block_number_of_entries data
     <= Z.of_nat (length data)
  /\ object (read_block m data w)
     = Some {| entries_array :=
                 option_map
                   (fun a =>
                      a ++ map Some
                             (block_entries
                                (Z.to_nat (block_number_of_entries data))
                                data 40))
                   (entries_array m) |}.
Proof.
  intros Hsize.
  unfold read_block at 1, libfsapfs_container_physical_map_read_data.
  destruct (Z.of_nat (length data) <? sizeof_fsapfs_container_physical_map_t)
    eqn:Hmin; [cbn; discriminate |].
  destruct (Z.of_nat (length data) >? SSIZE_MAX) eqn:Hmax;
    [cbn; discriminate |].
  cbn [orb]. fold (block_object_type data).
  destruct (Z.eqb_spec (block_object_type data) 0x4000000c) as [Htype | _];
    [| cbn; discriminate].
  cbn [negb]. fold (block_number_of_entries data).
  destruct (block_number_of_entries data >? 101) eqn:Hceil;
    [cbn; discriminate |].
  cbn [result]. intros Hres.
  apply Z.ltb_ge in Hmin.
  rewrite Z.gtb_ltb in Hmax, Hceil. apply Z.ltb_ge in Hmax, Hceil.
  pose proof (decoded_fields_sum_and_range data 0)
    as [_ [_ [_ [[Hcount0 _] _]]]].
  assert (Hfit :
    40 + sizeof_fsapfs_container_physical_map_entry_t
         * block_number_of_entries data <= Z.of_nat (length data)).
  { destruct (Z.eq_dec (block_number_of_entries data) 0) as [-> | Hnz].
    - unfold sizeof_fsapfs_container_physical_map_entry_t. lia.
    - pose proof (read_data_entries_success_fits
                    (Z.to_nat (block_number_of_entries data)) data
                    (Z.of_nat (length data)) 40 (entries_array m) w) as H.
      rewrite Z2Nat.id in H by lia.
      unfold sizeof_fsapfs_container_physical_map_entry_t in *.
      apply H; first [exact Hres | lia]. }
  repeat split; try assumption.
  rewrite read_block_past_header by assumption.
  unfold read_block_entries. cbn [object].
  destruct (read_data_entries_prefix
              (Z.to_nat (block_number_of_entries data)) data
              (Z.of_nat (length data)) 40 (entries_array m) w)
    as [k [Hobj [[_ [_ Hk]] | [Hneg _]]]].
  - rewrite Hobj. subst k. reflexivity.
  - rewrite Hres in Hneg. discriminate.
Qed.

(** X2.  A decode that returns 1 has checked everything it read: the
    buffer is at least a header structure and at most [SSIZE_MAX] long,
    the type tag is [0x4000000c], the count is at most 101, every record the
    header declares lies inside the buffer, and the map holds what it held
    before followed by exactly those records, in on-disk order. *)
Theorem read_data_success_is_in_bounds
  (m : libfsapfs_container_physical_map_t) (data : list byte) (w : world) :
  40 <= sizeof_fsapfs_container_physical_map_t ->
  result (read_block m data w) = 1 ->
  sizeof_fsapfs_container_physical_map_t <= Z.of_nat (length data)
  /\ Z.of_nat (length data) <= SSIZE_MAX
  /\ block_object_type data = 0x4000000c
  /\ block_number_of_entries data <= 101
  /\ 40 + sizeof_fsapfs_container_physical_map_entry_t
          * block_number_of_entries data
     <= Z.of_nat (length data)
  /\ object (read_block m data w)
     = Some {| entries_array :=
                 option_map
                   (fun a =>
                      a ++ map Some
                             (block_entries
                                (Z.to_nat (block_number_of_entries data))
                                data 40))
                   (entries_array m) |}.
Proof.
  intros Hsize Hres.
  destruct (read_block_success_in_bounds m data w Hsize Hres)
    as [Hmin [Hmax [Htype [Hceil [Hfit Hobject]]]]].
  split; [exact Hmin |]. split; [exact Hmax |]. split; [exact Htype |].
  split; [exact Hceil |]. split; [exact Hfit | exact Hobject].
Qed.

(** The decoder returns 1 or -1 and extends the array. *)
Lemma read_data_appends
  (m : libfsapfs_container_physical_map_t)
  (data : option (list byte)) (data_size : Z) (w : world) :
  let o :=
    libfsapfs_container_physical_map_read_data (Some m) data data_size w in
  ((result o = 1 /\ error o = []) \/ (result o = -1 /\ error o <> []))
  /\ exists appended : list libfsapfs_container_physical_map_entry_t,
       (length appended <= 101)%nat
       /\ object o
          = Some {| entries_array :=
                      option_map (fun a => a ++ map Some appended)
                        (entries_array m) |}.
Proof.
  assert (Hsame :
    Some m
    = Some {| entries_array :=
                option_map (fun a => a ++ map Some []) (entries_array m) |}).
  { destruct m as [[a|]]; cbn; [rewrite app_nil_r|]; reflexivity. }
  unfold libfsapfs_container_physical_map_read_data.
  destruct data as [bytes|];
    [| cbn; split; [right; split; [reflexivity | discriminate]
                   | exists []; split; [cbn; lia | exact Hsame]]].
  destruct ((data_size <? sizeof_fsapfs_container_physical_map_t)
            || (data_size >? SSIZE_MAX));
    [cbn; split; [right; split; [reflexivity | discriminate]
                 | exists []; split; [cbn; lia | exact Hsame]] |].
  destruct (negb (byte_stream_copy_to_uint32_little_endian bytes
                    object_type_offset =? 0x4000000c));
    [cbn; split; [right; split; [reflexivity | discriminate]
                 | exists []; split; [cbn; lia | exact Hsame]] |].
  destruct (byte_stream_copy_to_uint32_little_endian bytes
              number_of_entries_offset >? 101) eqn:Hceil;
    [cbn; split; [right; split; [reflexivity | discriminate]
                 | exists []; split; [cbn; lia | exact Hsame]] |].
  rewrite Z.gtb_ltb in Hceil. apply Z.ltb_ge in Hceil.
  cbv zeta. cbn [result error object].
  destruct (read_data_entries_prefix
              (Z.to_nat (byte_stream_copy_to_uint32_little_endian bytes
                           number_of_entries_offset))
              bytes data_size 40 (entries_array m) w)
    as [k [Hobj Hres]].
  split.
  - destruct Hres as [[H1 [H2 _]] | [H1 [H2 _]]]; [left | right];
      split; assumption.
  - exists (block_entries k bytes 40). split.
    + rewrite block_entries_length.
      destruct Hres as [[_ [_ Hk]] | [_ [_ Hk]]]; lia.
    + rewrite Hobj. reflexivity.
Qed.

(** X3.  The decoder only ever appends.  Whatever the arguments and the
    world, it returns 1 with no error set or -1 with an error set, and the
    array of the map afterwards is the array from before followed by at
    most 101 entries, none of them [NULL]: no entry that was in the map is
    removed, replaced or reordered. *)
Theorem read_data_only_appends
  (m : libfsapfs_container_physical_map_t)
  (data : option (list byte)) (data_size : Z) (w : world) :
  let o :=
    libfsapfs_container_physical_map_read_data (Some m) data data_size w in
  ((result o = 1 /\ error o = []) \/ (result o = -1 /\ error o <> []))
  /\ exists appended : list libfsapfs_container_physical_map_entry_t,
       (length appended <= 101)%nat
       /\ object o
          = Some {| entries_array :=
                      option_map (fun a => a ++ map Some appended)
                        (entries_array m) |}.
Proof.
  cbv zeta.
  destruct (read_data_appends m data data_size w)
    as [Hresult [appended [Hlength Hobject]]].
  split; [exact Hresult |].
  exists appended. split; [exact Hlength | exact Hobject].
Qed.

(** X4.  With memory available and a map whose array exists, the decoder
    returns 1 exactly for the buffers that are a well-formed block: long
    enough for the header structure, not longer than [SSIZE_MAX], tagged
    [0x4000000c], declaring at most 101 records, and holding all of them. *)
Theorem read_data_success_iff_well_formed
  (m : libfsapfs_container_physical_map_t) (array : libcdata_array_t)
  (data : list byte) (w : world) :
  40 <= sizeof_fsapfs_container_physical_map_t ->
  entries_array m = Some array ->
  no_failure w ->
  result (read_block m data w) = 1
  <-> (sizeof_fsapfs_container_physical_map_t <= Z.of_nat (length data)
       /\ Z.of_nat (length data) <= SSIZE_MAX
       /\ block_object_type data = 0x4000000c
       /\ block_number_of_entries data <= 101
       /\ 40 + sizeof_fsapfs_container_physical_map_entry_t
               * block_number_of_entries data
          <= Z.of_nat (length data)).
Proof.
  intros Hsize Harray Hw. split.
  - intros Hres.
    destruct (read_block_success_in_bounds m data w Hsize Hres)
      as [H1 [H2 [H3 [H4 [H5 _]]]]].
    repeat split; assumption.
  - intros [H1 [H2 [H3 [H4 H5]]]].
    pose proof (decoded_fields_sum_and_range data 0)
      as [_ [_ [_ [[Hcount0 _] _]]]].
    destruct (read_block_valid m array data w
                (Z.to_nat (block_number_of_entries data)))
      as [w' [E _]]; try assumption; try lia.
    rewrite E. reflexivity.
Qed.

(** X5.  The decoder does not reset the map: decoding a well-formed block
    into a map and then a second well-formed block into the same map, with
    memory available, succeeds both times and leaves the entries from
    before, then the records of the first block, then the records of the
    second. *)
Theorem read_data_accumulates
  (m : libfsapfs_container_physical_map_t) (array : libcdata_array_t)
  (data1 data2 : list byte) (w : world) (count1 count2 : nat) :
  entries_array m = Some array ->
  no_failure w ->
  sizeof_fsapfs_container_physical_map_t <= Z.of_nat (length data1) ->
  Z.of_nat (length data1) <= SSIZE_MAX ->
  block_object_type data1 = 0x4000000c ->
  block_number_of_entries data1 = Z.of_nat count1 ->
  (count1 <= 101)%nat ->
  40 + sizeof_fsapfs_container_physical_map_entry_t * Z.of_nat count1
    <= Z.of_nat (length data1) ->
  sizeof_fsapfs_container_physical_map_t <= Z.of_nat (length data2) ->
  Z.of_nat (length data2) <= SSIZE_MAX ->
  block_object_type data2 = 0x4000000c ->
  block_number_of_entries data2 = Z.of_nat count2 ->
  (count2 <= 101)%nat ->
  40 + sizeof_fsapfs_container_physical_map_entry_t * Z.of_nat count2
    <= Z.of_nat (length data2) ->
  exists m1,
    result (read_block m data1 w) = 1
    /\ object (read_block m data1 w) = Some m1
    /\ result (read_block m1 data2 (rest (read_block m data1 w))) = 1
    /\ object (read_block m1 data2 (rest (read_block m data1 w)))
       = Some {| entries_array :=
                   Some (array
                         ++ map Some (block_entries count1 data1 40)
                         ++ map Some (block_entries count2 data2 40)) |}.
Proof.
  intros Harray Hw A1 A2 A3 A4 A5 A6 B1 B2 B3 B4 B5 B6.
  destruct (read_block_valid m array data1 w count1)
    as [w1 [E1 Hw1]]; try assumption.
  rewrite E1. cbn [result object rest].
  eexists. split; [reflexivity |]. split; [reflexivity |].
  destruct (read_block_valid
              {| entries_array :=
                   Some (array ++ map Some (block_entries count1 data1 40)) |}
              (array ++ map Some (block_entries count1 data1 40))
              data2 w1 count2)
    as [w2 [E2 _]]; try assumption; try reflexivity.
  rewrite E2. cbn [result object]. rewrite <- app_assoc.
  split; reflexivity.
Qed.

(** *** The lookup on arbitrary maps *)

Lemma first_match_app
  (entries1 entries2 : list libfsapfs_container_physical_map_entry_t)
  (identifier : Z) :
  first_match (entries1 ++ entries2) identifier
  = match first_match entries1 identifier with
    | Some e => Some e
    | None => first_match entries2 identifier
    end.
Proof.
  induction entries1 as [|e entries1 IH]; simpl; [reflexivity |].
  destruct (identifier =? Entry.object_identifier e); [reflexivity | exact IH].
Qed.

Lemma first_match_some_present
  (entries : list libfsapfs_container_physical_map_entry_t) (identifier : Z)
  (e : libfsapfs_container_physical_map_entry_t) :
  first_match entries identifier = Some e ->
  In e entries /\ Entry.object_identifier e = identifier.
Proof.
  intros H. destruct (first_match_earliest entries identifier e H)
    as [j [Hnth [Hid _]]].
  split; [eapply nth_error_In; exact Hnth | exact Hid].
Qed.

(** X6.  On a map whose array holds no [NULL] pointer the lookup never
    fails: it returns 1 exactly when some entry carries the identifier, and
    then the output is the physical address of the earliest such entry; it
    returns 0 exactly when none does, and then the output keeps its
    value. *)
Theorem lookup_hit_iff_present
  (entries : list libfsapfs_container_physical_map_entry_t)
  (identifier value : Z) :
  let found :=
    libfsapfs_container_physical_map_get_physical_address_by_object_identifier
      (Some {| entries_array := Some (map Some entries) |})
      identifier (Some value) in
  lookup_error found = []
  /\ (lookup_result found = 1
      <-> exists e, In e entries /\ Entry.object_identifier e = identifier)
  /\ (lookup_result found = 0
      <-> forall e, In e entries -> Entry.object_identifier e <> identifier)
  /\ (lookup_result found = 1 ->
      exists (j : nat) e,
        nth_error entries j = Some e
        /\ Entry.object_identifier e = identifier
        /\ (forall (k : nat) e',
              (k < j)%nat -> nth_error entries k = Some e' ->
              Entry.object_identifier e' <> identifier)
        /\ lookup_physical_address found = Some (Entry.physical_address e))
  /\ (lookup_result found = 0 -> lookup_physical_address found = Some value).
Proof.
  cbv zeta. rewrite get_physical_address_entries_of.
  cbn [lookup_result lookup_error lookup_physical_address].
  destruct (first_match entries identifier) as [e|] eqn:Hfirst.
  - destruct (first_match_some_present _ _ _ Hfirst) as [Hin Hid].
    split; [reflexivity |]. split.
    { split; [intros _; exists e; split; assumption | reflexivity]. }
    split.
    { split; [discriminate |]. intros Hnone. exfalso.
      apply (Hnone e Hin Hid). }
    split; [| discriminate].
    intros _. destruct (first_match_earliest _ _ _ Hfirst)
      as [j [Hnth [_ Hbefore]]].
    exists j, e. repeat split; assumption.
  - split; [reflexivity |]. split.
    { split; [discriminate |]. intros Hex.
      destruct (first_match_present entries identifier Hex) as [e He].
      rewrite Hfirst in He. discriminate. }
    split.
    { split; [| reflexivity]. intros _ e Hin Hid.
      destruct (first_match_present entries identifier) as [e' He'];
        [exists e; split; assumption |].
      rewrite Hfirst in He'. discriminate. }
    split; [discriminate | reflexivity].
Qed.

(** X7.  Entries that come earlier in the array shadow later ones.  On a
    map that holds [entries1] followed by [entries2], a lookup that hits in
    [entries1] alone gives the same result and address on the whole map;
    one that misses there gives what the lookup gives on [entries2]
    alone. *)
Theorem lookup_earlier_entries_shadow
  (entries1 entries2 : list libfsapfs_container_physical_map_entry_t)
  (identifier value : Z) :
  let lookup_in entries :=
    libfsapfs_container_physical_map_get_physical_address_by_object_identifier
      (Some {| entries_array := Some (map Some entries) |})
      identifier (Some value) in
  (lookup_result (lookup_in entries1) = 1 ->
   lookup_result (lookup_in (entries1 ++ entries2)) = 1
   /\ lookup_physical_address (lookup_in (entries1 ++ entries2))
      = lookup_physical_address (lookup_in entries1))
  /\ (lookup_result (lookup_in entries1) <> 1 ->
      lookup_result (lookup_in (entries1 ++ entries2))
      = lookup_result (lookup_in entries2)
      /\ lookup_physical_address (lookup_in (entries1 ++ entries2))
         = lookup_physical_address (lookup_in entries2)).
Proof.
  cbv beta zeta. rewrite !get_physical_address_entries_of.
  cbn [lookup_result lookup_physical_address].
  rewrite first_match_app.
  destruct (first_match entries1 identifier) as [e|].
  - split; [intros _; split; reflexivity | intros H; contradiction].
  - split; [discriminate | intros _; split; reflexivity].
Qed.

Lemma scan_past_other_entries
  (visited : list libfsapfs_container_physical_map_entry_t)
  (unvisited : libcdata_array_t) (identifier value : Z) :
  (forall e, In e visited -> Entry.object_identifier e <> identifier) ->
  scan (map Some visited ++ unvisited) identifier value
  = scan unvisited identifier value.
Proof.
  induction visited as [|e visited IH]; intros H; [reflexivity |].
  cbn [map app scan].
  destruct (Z.eqb_spec identifier (Entry.object_identifier e)) as [Heq | _].
  - exfalso. apply (H e); [left; reflexivity | symmetry; exact Heq].
  - apply IH. intros e' Hin. apply H. right. exact Hin.
Qed.

Lemma scan_fails_at_null
  (array : libcdata_array_t) (identifier value : Z) :
  fst (fst (scan array identifier value)) = -1 ->
  exists (visited : list libfsapfs_container_physical_map_entry_t)
         (unvisited : libcdata_array_t),
    array = map Some visited ++ None :: unvisited
    /\ forall e, In e visited -> Entry.object_identifier e <> identifier.
Proof.
  induction array as [|p array IH]; cbn [scan]; [cbn; discriminate |].
  destruct p as [e|].
  - destruct (Z.eqb_spec identifier (Entry.object_identifier e)) as [_ | Hne];
      [cbn; discriminate |].
    intros H. destruct (IH H) as [visited [unvisited [Harray Habsent]]].
    exists (e :: visited), unvisited. split.
    + rewrite Harray. reflexivity.
    + intros e' [<- | Hin]; [intros Hc; apply Hne; symmetry; exact Hc |].
      apply Habsent. exact Hin.
  - intros _. exists [], array. split; [reflexivity |].
    intros e [].
Qed.

(** The lookup on a map with an array is the scan of that array. *)
Lemma get_physical_address_scan
  (array : libcdata_array_t) (identifier value : Z) :
  libfsapfs_container_physical_map_get_physical_address_by_object_identifier
    (Some {| entries_array := Some array |}) identifier (Some value)
  = {| lookup_result := fst (fst (scan array identifier value));
       lookup_error := snd (fst (scan array identifier value));
       lookup_map := Some {| entries_array := Some array |};
       lookup_physical_address := Some (snd (scan array identifier value)) |}.
Proof.
  unfold libfsapfs_container_physical_map_get_physical_address_by_object_identifier.
  cbn [entries_array libcdata_array_get_number_of_entries Z.eqb Pos.eqb negb].
  rewrite Nat2Z.id.
  pose proof (get_physical_address_entries_scan array [] identifier value)
    as H.
  cbn [length app Z.of_nat] in H. unfold libcdata_array_t in *. rewrite H.
  destruct (scan array identifier value) as [[r e] v]. reflexivity.
Qed.

(** X8.  When the lookup fails.  It returns -1 exactly in four cases: the
    map pointer is [NULL], the output pointer is [NULL], the array of the
    map is [NULL], or the array holds a [NULL] pointer that the scan
    reaches before any entry with the identifier.  In particular a [NULL]
    pointer in the array is an error and not a miss, even if an entry
    further on carries the identifier. *)
Theorem lookup_fails_iff
  (container_physical_map : option libfsapfs_container_physical_map_t)
  (identifier : Z) (physical_address : option Z) :
  lookup_result
    (libfsapfs_container_physical_map_get_physical_address_by_object_identifier
       container_physical_map identifier physical_address) = -1
  <-> (container_physical_map = None
       \/ physical_address = None
       \/ container_physical_map = Some {| entries_array := None |}
       \/ exists (visited : list libfsapfs_container_physical_map_entry_t)
                 (unvisited : libcdata_array_t),
            container_physical_map
            = Some {| entries_array :=
                        Some (map Some visited ++ None :: unvisited) |}
            /\ forall e,
                 In e visited -> Entry.object_identifier e <> identifier).
Proof.
  destruct container_physical_map as [[[array|]]|].
  - destruct physical_address as [value|].
    + rewrite get_physical_address_scan. cbn [lookup_result]. split.
      * intros H.
        destruct (scan_fails_at_null array identifier value H)
          as [visited [unvisited [Harray Habsent]]].
        right. right. right. exists visited, unvisited.
        split; [rewrite Harray; reflexivity | exact Habsent].
      * intros [H | [H | [H | [visited [unvisited [H Habsent]]]]]];
          try discriminate.
        inversion H; subst array.
        rewrite scan_past_other_entries by exact Habsent. reflexivity.
    + cbn. split; [intros _; right; left; reflexivity | reflexivity].
  - destruct physical_address as [value|]; cbn;
      (split; [intros _ | reflexivity]).
    + right. right. left. reflexivity.
    + right. left. reflexivity.
  - cbn. split; [intros _; left; reflexivity | reflexivity].
Qed.

(** *** Creating and releasing a map *)

(** X9.  The initializer never hands out a half-built map.  On a pointer
    to [NULL] it either returns 1 with a map whose array exists and is
    empty, on which every lookup is a miss, or returns -1 with a memory or
    initialization error and leaves the pointer at [NULL]; with memory
    available it returns 1.  On a pointer that is already set it returns -1
    with the value-already-set error and leaves the map and the world as
    they are. *)
Theorem initialize_yields_empty_map_or_null
  (w : world) (m : libfsapfs_container_physical_map_t) :
  let created := libfsapfs_container_physical_map_initialize (Some None) w in
  ((result created = 1 /\ error created = []
    /\ object created = Some {| entries_array := Some [] |}
    /\ forall identifier value : Z,
         libfsapfs_container_physical_map_get_physical_address_by_object_identifier
           (object created) identifier (Some value)
         = {| lookup_result := 0; lookup_error := [];
              lookup_map := object created;
              lookup_physical_address := Some value |})
   \/ (result created = -1 /\ object created = None
       /\ (error created
           = [(LIBCERROR_ERROR_DOMAIN_MEMORY,
               LIBCERROR_MEMORY_ERROR_INSUFFICIENT)]
           \/ error created
              = [(LIBCERROR_ERROR_DOMAIN_MEMORY,
                  LIBCERROR_MEMORY_ERROR_SET_FAILED)]
           \/ error created
              = [(LIBCERROR_ERROR_DOMAIN_RUNTIME,
                  LIBCERROR_RUNTIME_ERROR_INITIALIZE_FAILED)])))
  /\ (no_failure w -> result created = 1)
  /\ libfsapfs_container_physical_map_initialize (Some (Some m)) w
     = {| result := -1;
          error := [(LIBCERROR_ERROR_DOMAIN_RUNTIME,
                     LIBCERROR_RUNTIME_ERROR_VALUE_ALREADY_SET)];
          object := Some m; rest := w |}.
Proof.
  cbv zeta. split; [| split; [| reflexivity]].
  - unfold libfsapfs_container_physical_map_initialize,
      libcdata_array_initialize.
    destruct (attempt w) as [[|] w1]; cbn.
    + destruct (attempt w1) as [[|] w2]; cbn.
      * destruct (attempt w2) as [[|] w3]; cbn.
        -- left. repeat split; reflexivity.
        -- right. repeat split. right. right. reflexivity.
      * right. repeat split. right. left. reflexivity.
    + right. repeat split. left. reflexivity.
  - intros Hw. destruct (initialize_no_failure w Hw) as [w' [E _]].
    rewrite E. reflexivity.
Qed.

(** X10.  Releasing a map always clears the pointer, also when freeing the
    array reports a failure (the result is then -1 with the
    finalize-failed error).  A second release is a no-op that returns 1, and
    the cleared pointer can be initialized again, which a pointer that is
    still set cannot. *)
Theorem free_clears_and_allows_reuse
  (m : libfsapfs_container_physical_map_t) (w : world) :
  let freed := libfsapfs_container_physical_map_free (Some (Some m)) w in
  free_value freed = None
  /\ ((free_result freed = 1 /\ free_error freed = [])
      \/ (free_result freed = -1
          /\ free_error freed
             = [(LIBCERROR_ERROR_DOMAIN_RUNTIME,
                 LIBCERROR_RUNTIME_ERROR_FINALIZE_FAILED)]))
  /\ libfsapfs_container_physical_map_free
       (Some (free_value freed)) (free_rest freed)
     = {| free_result := 1; free_error := []; free_value := None;
          free_rest := free_rest freed |}
  /\ (forall w' : world,
        no_failure w' ->
        result (libfsapfs_container_physical_map_initialize
                  (Some (free_value freed)) w') = 1)
  /\ (forall w' : world,
        result (libfsapfs_container_physical_map_initialize
                  (Some (Some m)) w') = -1).
Proof.
  cbv zeta.
  set (freed := libfsapfs_container_physical_map_free (Some (Some m)) w).
  assert (Hshape :
    free_value freed = None
    /\ ((free_result freed = 1 /\ free_error freed = [])
        \/ (free_result freed = -1
            /\ free_error freed
               = [(LIBCERROR_ERROR_DOMAIN_RUNTIME,
                   LIBCERROR_RUNTIME_ERROR_FINALIZE_FAILED)]))).
  { subst freed.
    unfold libfsapfs_container_physical_map_free, libcdata_array_free.
    destruct (entries_array m) as [a|];
      [destruct (attempt w) as [[|] w1] |]; cbn;
      (split; [reflexivity |]);
      solve [left; split; reflexivity | right; split; reflexivity]. }
  destruct Hshape as [Hval Hres].
  split; [exact Hval |]. split; [exact Hres |]. rewrite Hval.
  split; [reflexivity |]. split.
  - intros w' Hw'. destruct (initialize_no_failure w' Hw') as [v [E _]].
    rewrite E. reflexivity.
  - intros w'. reflexivity.
Qed.

(** *** Reading a map from the image *)

Lemma slice_length (image : list byte) (offset size : Z) :
  0 <= offset -> 0 <= size ->
  offset + size <= Z.of_nat (length image) ->
  Z.of_nat (length (firstn (Z.to_nat size) (skipn (Z.to_nat offset) image)))
  = size.
Proof.
  intros Hoff Hsize Hfit. rewrite length_firstn, length_skipn. lia.
Qed.

Lemma slice_short (image : list byte) (offset size : Z) :
  0 <= offset -> 0 < size ->
  Z.of_nat (length image) < offset + size ->
  Z.of_nat (length (firstn (Z.to_nat size) (skipn (Z.to_nat offset) image)))
  < size.
Proof.
  intros Hoff Hsize Hshort. rewrite length_firstn, length_skipn. lia.
Qed.

(** X11.  Reading from the image is decoding the slice of the image that
    starts at [file_offset] and is one header structure long.  When the
    image holds that many bytes there and the I/O does not fail (the seek
    and the read succeed), the result, the map and the world are those of
    the decoder on that slice, whatever the decoder does and whether or not
    it finds memory; the handle ends just past the slice, and a decoder
    failure is handed on as -1 with the read-failed error added to the
    decoder's own. *)
Theorem read_file_io_handle_decodes_the_slice
  (m : libfsapfs_container_physical_map_t) (h : libbfio_handle_t)
  (file_offset : Z) (w : world) :
  0 <= file_offset ->
  0 <= sizeof_fsapfs_container_physical_map_t ->
  file_offset + sizeof_fsapfs_container_physical_map_t
    <= Z.of_nat (length (file_data h)) ->
  fst (attempt w) = true ->
  fst (attempt (snd (attempt w))) = true ->
  let slice :=
    firstn (Z.to_nat sizeof_fsapfs_container_physical_map_t)
      (skipn (Z.to_nat file_offset) (file_data h)) in
  let decoded := read_block m slice (snd (attempt (snd (attempt w)))) in
  let loaded :=
    libfsapfs_container_physical_map_read_file_io_handle
      (Some m) (Some h) file_offset w in
  file_result loaded = result decoded
  /\ file_map loaded = object decoded
  /\ file_rest loaded = rest decoded
  /\ file_handle loaded
     = Some {| file_data := file_data h;
               current_offset :=
                 file_offset + sizeof_fsapfs_container_physical_map_t |}
  /\ file_error loaded
     = (if result decoded =? 1 then []
        else handed_on (error decoded)
             ++ [(LIBCERROR_ERROR_DOMAIN_IO,
                  code_of LIBCERROR_IO_ERROR_READ_FAILED)]).
Proof.
  intros Hoff Hsize Hfit Hseek Hread. cbv zeta.
  unfold libfsapfs_container_physical_map_read_file_io_handle,
    libbfio_handle_seek_offset, libbfio_handle_read_buffer.
  replace (file_offset <? 0) with false by (symmetry; apply Z.ltb_ge; lia).
  destruct (attempt w) as [sought w1]. cbn [fst snd] in Hseek, Hread |- *.
  subst sought.
  replace (file_offset =? -1) with false by (symmetry; apply Z.eqb_neq; lia).
  destruct (attempt w1) as [got w2]. cbn [fst snd] in Hread |- *.
  subst got. cbn [negb file_data current_offset].
  rewrite (slice_length (file_data h) file_offset
             sizeof_fsapfs_container_physical_map_t Hoff Hsize Hfit).
  rewrite Z.eqb_refl. cbn [negb].
  unfold read_block.
  rewrite (slice_length (file_data h) file_offset
             sizeof_fsapfs_container_physical_map_t Hoff Hsize Hfit).
  destruct (read_data_appends m
              (Some (firstn (Z.to_nat sizeof_fsapfs_container_physical_map_t)
                       (skipn (Z.to_nat file_offset) (file_data h))))
              sizeof_fsapfs_container_physical_map_t w2)
    as [[[Hr _] | [Hr _]] _]; rewrite Hr; cbn; repeat split; reflexivity.
Qed.

(** X12.  An image that ends before [file_offset] plus one header structure
    cannot be read: whatever the world, the function returns -1 with the
    seek-failed or the read-failed error and leaves the map as it was. *)
Theorem read_file_io_handle_short_image
  (m : libfsapfs_container_physical_map_t) (h : libbfio_handle_t)
  (file_offset : Z) (w : world) :
  40 <= sizeof_fsapfs_container_physical_map_t ->
  0 <= file_offset ->
  Z.of_nat (length (file_data h))
    < file_offset + sizeof_fsapfs_container_physical_map_t ->
  let loaded :=
    libfsapfs_container_physical_map_read_file_io_handle
      (Some m) (Some h) file_offset w in
  file_result loaded = -1
  /\ file_map loaded = Some m
  /\ (file_error loaded
      = [(LIBCERROR_ERROR_DOMAIN_IO, LIBCERROR_IO_ERROR_SEEK_FAILED)]
      \/ file_error loaded
         = [(LIBCERROR_ERROR_DOMAIN_IO,
             code_of LIBCERROR_IO_ERROR_READ_FAILED)]).
Proof.
  intros Hsize Hoff Hshort. cbv zeta.
  unfold libfsapfs_container_physical_map_read_file_io_handle,
    libbfio_handle_seek_offset, libbfio_handle_read_buffer.
  replace (file_offset <? 0) with false by (symmetry; apply Z.ltb_ge; lia).
  destruct (attempt w) as [[|] w1].
  2:{ cbn. repeat split. left. reflexivity. }
  replace (file_offset =? -1) with false by (symmetry; apply Z.eqb_neq; lia).
  destruct (attempt w1) as [[|] w2]; cbn [negb file_data current_offset].
  - pose proof (slice_short (file_data h) file_offset
                  sizeof_fsapfs_container_physical_map_t Hoff
                  ltac:(lia) Hshort) as Hlen.
    replace (Z.of_nat
               (length
                  (firstn (Z.to_nat sizeof_fsapfs_container_physical_map_t)
                     (skipn (Z.to_nat file_offset) (file_data h))))
             =? sizeof_fsapfs_container_physical_map_t) with false
      by (symmetry; apply Z.eqb_neq; lia).
    cbn. repeat split. right. reflexivity.
  - replace (-1 =? sizeof_fsapfs_container_physical_map_t) with false
      by (symmetry; apply Z.eqb_neq; lia).
    cbn. repeat split. right. reflexivity.
Qed.

(** X13.  What can be loaded from the image is bounded by the header
    structure: when the function returns 1, the slice it decoded is exactly
    one header structure long, carries the tag [0x4000000c], and all the
    records it declares lie inside it, so their number is at most
    [(sizeof - 40) / 40]; the map holds what it held before followed by
    those records. *)
Theorem read_file_io_handle_success_is_bounded
  (m : libfsapfs_container_physical_map_t) (h : libbfio_handle_t)
  (file_offset : Z) (w : world) :
  40 <= sizeof_fsapfs_container_physical_map_t ->
  file_result
    (libfsapfs_container_physical_map_read_file_io_handle
       (Some m) (Some h) file_offset w) = 1 ->
  let slice :=
    firstn (Z.to_nat sizeof_fsapfs_container_physical_map_t)
      (skipn (Z.to_nat file_offset) (file_data h)) in
  Z.of_nat (length slice) = sizeof_fsapfs_container_physical_map_t
  /\ block_object_type slice = 0x4000000c
  /\ 40 + sizeof_fsapfs_container_physical_map_entry_t
          * block_number_of_entries slice
     <= sizeof_fsapfs_container_physical_map_t
  /\ block_number_of_entries slice
     <= (sizeof_fsapfs_container_physical_map_t - 40) / 40
  /\ file_map
       (libfsapfs_container_physical_map_read_file_io_handle
          (Some m) (Some h) file_offset w)
     = Some {| entries_array :=
                 option_map
                   (fun a =>
                      a ++ map Some
                             (block_entries
                                (Z.to_nat (block_number_of_entries slice))
                                slice 40))
                   (entries_array m) |}.
Proof.
  intros Hsize. cbv zeta.
  unfold libfsapfs_container_physical_map_read_file_io_handle,
    libbfio_handle_seek_offset, libbfio_handle_read_buffer.
  destruct (file_offset <? 0); [cbn; discriminate |].
  destruct (attempt w) as [[|] w1]; [| cbn; discriminate].
  destruct (file_offset =? -1); [cbn; discriminate |].
  destruct (attempt w1) as [[|] w2]; cbn [negb file_data current_offset].
  2:{ replace (-1 =? sizeof_fsapfs_container_physical_map_t) with false
        by (symmetry; apply Z.eqb_neq; lia).
      cbn. discriminate. }
  set (slice := firstn (Z.to_nat sizeof_fsapfs_container_physical_map_t)
                  (skipn (Z.to_nat file_offset) (file_data h))).
  destruct (Z.eqb_spec (Z.of_nat (length slice))
              sizeof_fsapfs_container_physical_map_t) as [Hlen | _];
    [| cbn; discriminate].
  cbn [negb].
  assert (Hblock :
    libfsapfs_container_physical_map_read_data (Some m) (Some slice)
      sizeof_fsapfs_container_physical_map_t w2
    = read_block m slice w2).
  { unfold read_block. rewrite Hlen. reflexivity. }
  rewrite Hblock.
  destruct (Z.eqb_spec (result (read_block m slice w2)) 1) as [Hres | _];
    [| cbn; discriminate].
  cbn [negb file_result file_map]. intros _.
  destruct (read_block_success_in_bounds m slice w2 Hsize Hres)
    as [_ [_ [Htype [_ [Hfit Hobj]]]]].
  rewrite Hlen in Hfit.
  split; [exact Hlen |]. split; [exact Htype |]. split; [exact Hfit |].
  split; [| exact Hobj].
  apply Z.div_le_lower_bound; [lia |].
  unfold sizeof_fsapfs_container_physical_map_entry_t in Hfit. lia.
Qed.

End ContainerPhysicalMap.

(** ** The properties on the test vectors

    The statements above, applied to concrete blocks under the reference
    layout: a 40-byte header structure, the object identifier of an entry
    at sub-offset 24 and its physical address at sub-offset 32. *)

Lemma read_data_then_lookup_roundtrip_witness :
  result (initialize_and_read_data 40 24 32 block_one_entry []) = 1
  /\ error (initialize_and_read_data 40 24 32 block_one_entry []) = []
  /\ forall i : nat,
       (i < 1)%nat ->
       let found :=
         libfsapfs_container_physical_map_get_physical_address_by_object_identifier
           (object (initialize_and_read_data 40 24 32 block_one_entry []))
           (Entry.object_identifier (block_entry 24 32 block_one_entry i))
           (Some 0) in
       lookup_result found = 1
       /\ lookup_error found = []
       /\ lookup_physical_address found
          = Some (Entry.physical_address (block_entry 24 32 block_one_entry i)).
Proof.
  apply (read_data_then_lookup_roundtrip 40 24 32 block_one_entry [] 1 0).
  - reflexivity.
  - simpl; lia.
  - unfold SSIZE_MAX; simpl; lia.
  - reflexivity.
  - reflexivity.
  - lia.
  - simpl; lia.
  - simpl. constructor; [simpl; tauto | constructor].
Defined.

Lemma read_data_object_type_check_witness :
  (block_object_type block_wrong_type <> 0x4000000c ->
   result (read_block 40 24 32 fresh_map block_wrong_type []) = -1
   /\ error (read_block 40 24 32 fresh_map block_wrong_type [])
      = [(LIBCERROR_ERROR_DOMAIN_RUNTIME,
          LIBCERROR_RUNTIME_ERROR_UNSUPPORTED_VALUE)]
   /\ error_kind_of (error (read_block 40 24 32 fresh_map block_wrong_type []))
      = Some UnsupportedType
   /\ object (read_block 40 24 32 fresh_map block_wrong_type [])
      = Some fresh_map
   /\ rest (read_block 40 24 32 fresh_map block_wrong_type []) = [])
  /\ (block_object_type block_wrong_type = 0x4000000c ->
      read_block 40 24 32 fresh_map block_wrong_type []
      = (if block_number_of_entries block_wrong_type >? 101
         then {| result := -1;
                 error := [(LIBCERROR_ERROR_DOMAIN_RUNTIME,
                            LIBCERROR_RUNTIME_ERROR_VALUE_OUT_OF_BOUNDS)];
                 object := Some fresh_map; rest := [] |}
         else read_block_entries 24 32 fresh_map block_wrong_type [])
      /\ ~ In (LIBCERROR_ERROR_DOMAIN_RUNTIME,
               LIBCERROR_RUNTIME_ERROR_UNSUPPORTED_VALUE)
             (error (read_block 40 24 32 fresh_map block_wrong_type []))).
Proof.
  apply (read_data_object_type_check 40 24 32 fresh_map block_wrong_type []).
  - simpl; lia.
  - unfold SSIZE_MAX; simpl; lia.
Defined.

Lemma read_data_entry_ceiling_witness :
  (block_number_of_entries block_too_many_entries > 101 ->
   result (read_block 40 24 32 fresh_map block_too_many_entries []) = -1
   /\ error (read_block 40 24 32 fresh_map block_too_many_entries [])
      = [(LIBCERROR_ERROR_DOMAIN_RUNTIME,
          LIBCERROR_RUNTIME_ERROR_VALUE_OUT_OF_BOUNDS)]
   /\ error_kind_of
        (error (read_block 40 24 32 fresh_map block_too_many_entries []))
      = Some OutOfBounds
   /\ object (read_block 40 24 32 fresh_map block_too_many_entries [])
      = Some fresh_map
   /\ rest (read_block 40 24 32 fresh_map block_too_many_entries []) = [])
  /\ (block_number_of_entries block_too_many_entries <= 101 ->
      read_block 40 24 32 fresh_map block_too_many_entries []
      = read_block_entries 24 32 fresh_map block_too_many_entries []
      /\ ~ In (LIBCERROR_ERROR_DOMAIN_RUNTIME,
               LIBCERROR_RUNTIME_ERROR_VALUE_OUT_OF_BOUNDS)
             (error (read_block 40 24 32 fresh_map block_too_many_entries []))).
Proof.
  apply (read_data_entry_ceiling 40 24 32 fresh_map block_too_many_entries []).
  - simpl; lia.
  - unfold SSIZE_MAX; simpl; lia.
  - reflexivity.
Defined.

Lemma read_data_short_buffer_witness :
  result (read_block 40 24 32 fresh_map [] []) = -1
  /\ error (read_block 40 24 32 fresh_map [] [])
     = [(LIBCERROR_ERROR_DOMAIN_RUNTIME,
         LIBCERROR_RUNTIME_ERROR_VALUE_OUT_OF_BOUNDS)]
  /\ error_kind_of (error (read_block 40 24 32 fresh_map [] []))
     = Some OutOfBounds
  /\ object (read_block 40 24 32 fresh_map [] []) = Some fresh_map
  /\ rest (read_block 40 24 32 fresh_map [] []) = [].
Proof.
  apply (read_data_short_buffer 40 24 32 fresh_map [] []).
  - lia.
  - simpl; lia.
Defined.

(** C4 as the specification words it does not hold: the empty buffer is
    shorter than 40 bytes and is rejected, but the error is the
    value-out-of-bounds one, which is [OutOfBounds] and not [Truncated]. *)
Lemma read_data_short_buffer_not_truncated :
  Z.of_nat (length (@nil byte)) < 40
  /\ result (read_block 40 24 32 fresh_map [] []) = -1
  /\ error_kind_of (error (read_block 40 24 32 fresh_map [] []))
     = Some OutOfBounds
  /\ error_kind_of (error (read_block 40 24 32 fresh_map [] []))
     <> Some Truncated.
Proof.
  split; [simpl; lia |]. split; [reflexivity |]. split; [reflexivity |].
  simpl. discriminate.
Qed.

Lemma lookup_miss_returns_zero_witness :
  libfsapfs_container_physical_map_get_physical_address_by_object_identifier
    (Some {| entries_array :=
               Some [Some {| object_identifier := 0x400;
                             physical_address := 9 |}] |})
    0x401 (Some 77)
  = {| lookup_result := 0; lookup_error := [];
       lookup_map :=
         Some {| entries_array :=
                   Some [Some {| object_identifier := 0x400;
                                 physical_address := 9 |}] |};
       lookup_physical_address := Some 77 |}.
Proof.
  apply (lookup_miss_returns_zero 40 24 32 block_one_entry []).
  - reflexivity.
  - reflexivity.
  - intros a e Ha Hin. simpl in Ha. inversion Ha; subst a; clear Ha.
    simpl in Hin. destruct Hin as [He | []].
    inversion He; subst e. simpl. lia.
Defined.

Lemma read_data_keeps_duplicates_witness :
  result (initialize_and_read_data 40 24 32 block_duplicate_identifiers []) = 1
  /\ error (initialize_and_read_data 40 24 32 block_duplicate_identifiers [])
     = []
  /\ holds_entries
       (object (initialize_and_read_data 40 24 32
                  block_duplicate_identifiers []))
       (block_entries 24 32 2 block_duplicate_identifiers 40)
  /\ forall i : nat,
       (i < 2)%nat ->
       exists j : nat,
         (j <= i)%nat
         /\ Entry.object_identifier
              (block_entry 24 32 block_duplicate_identifiers j)
            = Entry.object_identifier
                (block_entry 24 32 block_duplicate_identifiers i)
         /\ (forall k : nat,
               (k < j)%nat ->
               Entry.object_identifier
                 (block_entry 24 32 block_duplicate_identifiers k)
               <> Entry.object_identifier
                    (block_entry 24 32 block_duplicate_identifiers i))
         /\ let found :=
              libfsapfs_container_physical_map_get_physical_address_by_object_identifier
                (object (initialize_and_read_data 40 24 32
                           block_duplicate_identifiers []))
                (Entry.object_identifier
                   (block_entry 24 32 block_duplicate_identifiers i))
                (Some 0) in
            lookup_result found = 1
            /\ lookup_physical_address found
               = Some (Entry.physical_address
                         (block_entry 24 32 block_duplicate_identifiers j)).
Proof.
  apply (read_data_keeps_duplicates 40 24 32
           block_duplicate_identifiers [] 2 0).
  - reflexivity.
  - simpl; lia.
  - unfold SSIZE_MAX; simpl; lia.
  - reflexivity.
  - reflexivity.
  - lia.
  - simpl; lia.
Defined.

(** C6 as the specification words it does not hold: the two records of
    this block carry the same object identifier, and the decoder accepts
    the block, keeps both, and the lookup answers with the first. *)
Lemma read_data_accepts_duplicate_identifiers :
  Entry.object_identifier (block_entry 24 32 block_duplicate_identifiers 0)
  = Entry.object_identifier (block_entry 24 32 block_duplicate_identifiers 1)
  /\ result (initialize_and_read_data 40 24 32 block_duplicate_identifiers [])
     = 1
  /\ error (initialize_and_read_data 40 24 32 block_duplicate_identifiers [])
     = []
  /\ object (initialize_and_read_data 40 24 32 block_duplicate_identifiers [])
     = Some {| entries_array :=
                 Some [Some {| object_identifier := 0x400;
                               physical_address := 9 |};
                       Some {| object_identifier := 0x400;
                               physical_address := 11 |}] |}
  /\ lookup_physical_address
       (libfsapfs_container_physical_map_get_physical_address_by_object_identifier
          (object (initialize_and_read_data 40 24 32
                     block_duplicate_identifiers []))
          0x400 (Some 0))
     = Some 9.
Proof.
  repeat split; reflexivity.
Qed.

Lemma read_data_failure_keeps_decoded_prefix_witness :
  result (read_block 40 24 32 fresh_map block_second_entry_missing []) = -1
  /\ error (read_block 40 24 32 fresh_map block_second_entry_missing []) <> []
  /\ exists k : nat,
       Z.of_nat k < block_number_of_entries block_second_entry_missing
       /\ object (read_block 40 24 32 fresh_map block_second_entry_missing [])
          = Some {| entries_array :=
                      option_map
                        (fun a =>
                           a ++ map Some
                                  (block_entries 24 32 k
                                     block_second_entry_missing 40))
                        (entries_array fresh_map) |}
       /\ (forall i : nat, (i < 3 * k)%nat -> answer [] i = true)
       /\ (forall i : nat,
             (i < k)%nat ->
             40 + 40 * (Z.of_nat i + 1)
             <= Z.of_nat (length block_second_entry_missing))
       /\ ((error (read_block 40 24 32 fresh_map
                     block_second_entry_missing [])
            = [(LIBCERROR_ERROR_DOMAIN_RUNTIME,
                LIBCERROR_RUNTIME_ERROR_INITIALIZE_FAILED)]
            /\ (answer [] (3 * k) = false \/ answer [] (3 * k + 1) = false))
           \/ (error (read_block 40 24 32 fresh_map
                        block_second_entry_missing [])
               = [(LIBCERROR_ERROR_DOMAIN_IO, LIBCERROR_IO_ERROR_READ_FAILED)]
               /\ answer [] (3 * k) = true /\ answer [] (3 * k + 1) = true
               /\ Z.of_nat (length block_second_entry_missing)
                  < 40 + 40 * (Z.of_nat k + 1))
           \/ (error (read_block 40 24 32 fresh_map
                        block_second_entry_missing [])
               = [(LIBCERROR_ERROR_DOMAIN_RUNTIME,
                   LIBCERROR_RUNTIME_ERROR_APPEND_FAILED)]
               /\ answer [] (3 * k) = true /\ answer [] (3 * k + 1) = true
               /\ 40 + 40 * (Z.of_nat k + 1)
                  <= Z.of_nat (length block_second_entry_missing)
               /\ (entries_array fresh_map = None
                   \/ answer [] (3 * k + 2) = false))).
Proof.
  apply (read_data_failure_keeps_decoded_prefix 40 24 32
           fresh_map block_second_entry_missing []).
  - simpl; lia.
  - unfold SSIZE_MAX; simpl; lia.
  - reflexivity.
  - vm_compute. discriminate.
  - vm_compute. discriminate.
Defined.

(** C7 as the specification words it does not hold: this block declares
    two records and holds one; the decoder fails on the second and the map,
    empty before the call, keeps the first. *)
Lemma read_data_failure_retains_first_entry :
  result (read_block 40 24 32 fresh_map block_second_entry_missing []) = -1
  /\ object (read_block 40 24 32 fresh_map block_second_entry_missing [])
     = Some {| entries_array :=
                 Some [Some {| object_identifier := 0x400;
                               physical_address := 9 |}] |}
  /\ object (read_block 40 24 32 fresh_map block_second_entry_missing [])
     <> Some fresh_map.
Proof.
  split; [reflexivity |]. split; [reflexivity |].
  vm_compute. discriminate.
Qed.

Lemma read_data_twice_equal_witness :
  result (initialize_and_read_data 40 24 32 block_one_entry [])
  = result (initialize_and_read_data 40 24 32 block_one_entry [true; true])
  /\ error (initialize_and_read_data 40 24 32 block_one_entry [])
     = error (initialize_and_read_data 40 24 32 block_one_entry [true; true])
  /\ object (initialize_and_read_data 40 24 32 block_one_entry [])
     = object (initialize_and_read_data 40 24 32 block_one_entry [true; true]).
Proof.
  apply (read_data_twice_equal 40 24 32 block_one_entry [] [true; true]).
  - reflexivity.
  - reflexivity.
Defined.

(** ** The further properties on the test vectors *)

Lemma read_data_success_is_in_bounds_witness :
  40 <= Z.of_nat (length block_one_entry)
  /\ Z.of_nat (length block_one_entry) <= SSIZE_MAX
  /\ block_object_type block_one_entry = 0x4000000c
  /\ block_number_of_entries block_one_entry <= 101
  /\ 40 + sizeof_fsapfs_container_physical_map_entry_t
          * block_number_of_entries block_one_entry
     <= Z.of_nat (length block_one_entry)
  /\ object (read_block 40 24 32 fresh_map block_one_entry [])
     = Some {| entries_array :=
                 option_map
                   (fun a =>
                      a ++ map Some
                             (block_entries 24 32
                                (Z.to_nat
                                   (block_number_of_entries block_one_entry))
                                block_one_entry 40))
                   (entries_array fresh_map) |}.
Proof.
  apply (read_data_success_is_in_bounds 40 24 32 fresh_map block_one_entry []).
  - lia.
  - reflexivity.
Defined.

Lemma read_data_success_iff_well_formed_witness :
  result (read_block 40 24 32 fresh_map block_second_entry_missing []) = 1
  <-> (40 <= Z.of_nat (length block_second_entry_missing)
       /\ Z.of_nat (length block_second_entry_missing) <= SSIZE_MAX
       /\ block_object_type block_second_entry_missing = 0x4000000c
       /\ block_number_of_entries block_second_entry_missing <= 101
       /\ 40 + sizeof_fsapfs_container_physical_map_entry_t
               * block_number_of_entries block_second_entry_missing
          <= Z.of_nat (length block_second_entry_missing)).
Proof.
  apply (read_data_success_iff_well_formed 40 24 32 fresh_map []
           block_second_entry_missing []).
  - lia.
  - reflexivity.
  - reflexivity.
Defined.

Lemma read_data_accumulates_witness :
  exists m1,
    result (read_block 40 24 32 fresh_map block_one_entry []) = 1
    /\ object (read_block 40 24 32 fresh_map block_one_entry []) = Some m1
    /\ result (read_block 40 24 32 m1 block_duplicate_identifiers
                 (rest (read_block 40 24 32 fresh_map block_one_entry [])))
       = 1
    /\ object (read_block 40 24 32 m1 block_duplicate_identifiers
                 (rest (read_block 40 24 32 fresh_map block_one_entry [])))
       = Some {| entries_array :=
                   Some ([]
                         ++ map Some
                              (block_entries 24 32 1 block_one_entry 40)
                         ++ map Some
                              (block_entries 24 32 2
                                 block_duplicate_identifiers 40)) |}.
Proof.
  apply (read_data_accumulates 40 24 32 fresh_map []
           block_one_entry block_duplicate_identifiers [] 1 2).
  - reflexivity.
  - reflexivity.
  - simpl; lia.
  - unfold SSIZE_MAX; simpl; lia.
  - reflexivity.
  - reflexivity.
  - lia.
  - simpl; lia.
  - simpl; lia.
  - unfold SSIZE_MAX; simpl; lia.
  - reflexivity.
  - reflexivity.
  - lia.
  - simpl; lia.
Defined.

Lemma read_file_io_handle_decodes_the_slice_witness :
  let slice :=
    firstn (Z.to_nat 80) (skipn (Z.to_nat 16) (file_data image_one_block)) in
  let decoded :=
    read_block 80 24 32 fresh_map slice
      (snd (attempt (snd (attempt [true; true; false])))) in
  let loaded :=
    libfsapfs_container_physical_map_read_file_io_handle 80 24 32
      (Some fresh_map) (Some image_one_block) 16 [true; true; false] in
  file_result loaded = result decoded
  /\ file_map loaded = object decoded
  /\ file_rest loaded = rest decoded
  /\ file_handle loaded
     = Some {| file_data := file_data image_one_block;
               current_offset := 16 + 80 |}
  /\ file_error loaded
     = (if result decoded =? 1 then []
        else handed_on (error decoded)
             ++ [(LIBCERROR_ERROR_DOMAIN_IO,
                  code_of LIBCERROR_IO_ERROR_READ_FAILED)]).
Proof.
  apply (read_file_io_handle_decodes_the_slice 80 24 32
           fresh_map image_one_block 16 [true; true; false]).
  - lia.
  - lia.
  - simpl; lia.
  - reflexivity.
  - reflexivity.
Defined.

Lemma read_file_io_handle_short_image_witness :
  let loaded :=
    libfsapfs_container_physical_map_read_file_io_handle 80 24 32
      (Some fresh_map) (Some image_cut_short) 16 [] in
  file_result loaded = -1
  /\ file_map loaded = Some fresh_map
  /\ (file_error loaded
      = [(LIBCERROR_ERROR_DOMAIN_IO, LIBCERROR_IO_ERROR_SEEK_FAILED)]
      \/ file_error loaded
         = [(LIBCERROR_ERROR_DOMAIN_IO,
             code_of LIBCERROR_IO_ERROR_READ_FAILED)]).
Proof.
  apply (read_file_io_handle_short_image 80 24 32
           fresh_map image_cut_short 16 []).
  - lia.
  - lia.
  - simpl; lia.
Defined.

Lemma read_file_io_handle_success_is_bounded_witness :
  let slice :=
    firstn (Z.to_nat 80) (skipn (Z.to_nat 16) (file_data image_one_block)) in
  Z.of_nat (length slice) = 80
  /\ block_object_type slice = 0x4000000c
  /\ 40 + sizeof_fsapfs_container_physical_map_entry_t
          * block_number_of_entries slice
     <= 80
  /\ block_number_of_entries slice <= (80 - 40) / 40
  /\ file_map
       (libfsapfs_container_physical_map_read_file_io_handle 80 24 32
          (Some fresh_map) (Some image_one_block) 16 [])
     = Some {| entries_array :=
                 option_map
                   (fun a =>
                      a ++ map Some
                             (block_entries 24 32
                                (Z.to_nat (block_number_of_entries slice))
                                slice 40))
                   (entries_array fresh_map) |}.
Proof.
  apply (read_file_io_handle_success_is_bounded 80 24 32
           fresh_map image_one_block 16 []).
  - lia.
  - reflexivity.
Defined.
